(** * Iso-Seq refine: a shallow embedding of [RefineMixin.parse_refine_log]

    Source: multiqc/modules/isoseq/refine.py.

    Python floats are modelled as exact rationals [Q]; [math.sqrt] of a
    positive value is kept symbolic ([VSqrt]) and read as a real number
    through [num_val].  Dictionaries are stdpp [gmap]s; a [defaultdict] is a
    [gmap] read through [dget] with its default.  Python exceptions are the
    left side of [Result]. *)

From Stdlib Require Import QArith Qminmax Reals Qreals Lra Ascii String.
From stdpp Require Import base gmap sets list strings.

Open Scope Q_scope.
#[local] Set Warnings "-register-all".

(* ------------------------------------------------------------------ *)
(** ** Exceptions *)

Inductive Exc :=
| KeyError          (* row[column] on a column the CSV header lacks *)
| TypeError         (* float(None) on a short CSV row *)
| ValueError        (* float(s) on a string that is not a number *)
| ZeroDivisionError (* sums[c] / counts[c] with counts[c] = 0 *)
| AttributeError.   (* .update on a summary payload that is not a dict *)

Definition Result (A : Type) : Type := (Exc + A)%type.

Definition ret {A} (a : A) : Result A := inr a.
Definition raise {A} (e : Exc) : Result A := inl e.
Definition bind {A B} (m : Result A) (k : A -> Result B) : Result B :=
  match m with inl e => inl e | inr a => k a end.

Notation "'let!' x := m 'in' k" := (bind m (fun x => k))
  (at level 200, x name, m at level 100, k at level 200).

(** [for x in xs: st = body(st, x)] in the exception monad. *)
Fixpoint for_each {A S} (body : S -> A -> Result S) (st : S) (xs : list A)
  : Result S :=
  match xs with
  | [] => ret st
  | x :: xs' => let! st' := body st x in for_each body st' xs'
  end.

(* ------------------------------------------------------------------ *)
(** ** Values *)

(** Python's float extended with the defaults of [mins] / [maxs]. *)
Inductive ext := Fin (q : Q) | PosInf | NegInf.

(** [a < b] on floats. *)
Definition ext_lt (a b : ext) : bool :=
  match a, b with
  | Fin x, Fin y => negb (Qle_bool y x)
  | Fin _, PosInf | NegInf, Fin _ | NegInf, PosInf => true
  | _, _ => false
  end.

(** Python's two-argument [min(a, b)] / [max(a, b)]: the first argument is
    kept unless the second is strictly smaller / larger. *)
Definition py_min (a b : ext) : ext := if ext_lt b a then b else a.
Definition py_max (a b : ext) : ext := if ext_lt a b then b else a.

(** A decoded JSON value (the leaves of a summary payload). *)
Inductive json :=
| JNull
| JBool (b : bool)
| JNum (q : Q)
| JStr (s : string)
| JArr (l : list json)
| JObj (l : list (string * json)).

(** A value stored in a result dict. *)
Inductive Value :=
| VJson (j : json)                    (* a field of the summary JSON *)
| VFloat (x : ext)                    (* min, mean, max, std = 0.0 *)
| VSqrt (q : Q)                       (* math.sqrt(q) *)
| VCounts (c : gmap (option string) Z). (* dict(strand_counts) *)

(** The real number a numeric [Value] denotes. *)
Definition num_val (v : Value) : option R :=
  match v with
  | VFloat (Fin q) => Some (Q2R q)
  | VSqrt q => Some (sqrt (Q2R q))
  | _ => None
  end.

(** [defaultdict(lambda: d)[k]] read without insertion. *)
Definition dget {K V} `{Countable K} (d : V) (m : gmap K V) (k : K) : V :=
  match m !! k with Some v => v | None => d end.

(* ------------------------------------------------------------------ *)
(** ** Per-read CSV rows *)

(** A row of [csv.DictReader]: header name to cell; a short row maps the
    missing trailing columns to [None] (DictReader's [restval]). *)
Abbreviation Row := (gmap string (option string)).

Definition columns : list string :=
  ["fivelen"; "threelen"; "polyAlen"; "insertlen"]%string.

(** The [defaultdict]s of one CSV file. *)
Record RunStats := mkRunStats {
  counts : gmap string Z;
  sums : gmap string Q;
  squared_sums : gmap string Q;
  mins : gmap string ext;
  maxs : gmap string ext;
  strand_counts : gmap (option string) Z;
  primer_counts : gmap (option string) Z
}.

Definition init_stats : RunStats := mkRunStats ∅ ∅ ∅ ∅ ∅ ∅ ∅.

(** [label_counts[key] += 1] on a [defaultdict(int)]. *)
Definition bump (m : gmap (option string) Z) (key : option string)
  : gmap (option string) Z :=
  <[key := (dget 0 m key + 1)%Z]> m.

Abbreviation loc := positive.

Section Refine.

(** Python's [float(s)] on a string: the number, or [None] for ValueError. *)
Variable py_float : string -> option Q.

(** [float(row[column])]. *)
Definition row_float (row : Row) (column : string) : Result Q :=
  match row !! column with
  | None => raise KeyError
  | Some None => raise TypeError
  | Some (Some s) =>
      match py_float s with Some q => ret q | None => raise ValueError end
  end.

(** [row[key]] for a categorical column. *)
Definition row_label (row : Row) (key : string) : Result (option string) :=
  match row !! key with None => raise KeyError | Some x => ret x end.

(** Lines 41-45, once [value] is parsed. *)
Definition record_value (st : RunStats) (column : string) (value : Q) : RunStats :=
  mkRunStats
    (<[column := (dget 0 (counts st) column + 1)%Z]> (counts st))
    (<[column := dget 0 (sums st) column + value]> (sums st))
    (<[column := dget 0 (squared_sums st) column + value * value]>
       (squared_sums st))
    (<[column := py_min (dget PosInf (mins st) column) (Fin value)]> (mins st))
    (<[column := py_max (dget NegInf (maxs st) column) (Fin value)]> (maxs st))
    (strand_counts st) (primer_counts st).

(** Lines 48-49, once the two labels are read. *)
Definition record_labels (st : RunStats) (strand primer : option string)
  : RunStats :=
  mkRunStats (counts st) (sums st) (squared_sums st) (mins st) (maxs st)
    (bump (strand_counts st) strand) (bump (primer_counts st) primer).

(** The body of [for column in [...]] (lines 40-45). *)
Definition column_step (row : Row) (st : RunStats) (column : string)
  : Result RunStats :=
  let! value := row_float row column in
  ret (record_value st column value).

(** The body of [for row in reader] (lines 38-49). *)
Definition row_step (st : RunStats) (row : Row) : Result RunStats :=
  let! st1 := for_each (column_step row) st columns in
  let! strand := row_label row "strand" in
  let! primer := row_label row "primer" in
  ret (record_labels st1 strand primer).

Definition fold_rows (rows : list Row) : Result RunStats :=
  for_each row_step init_stats rows.

(** The body of the finalisation loop (lines 55-62). *)
Definition finalize_column (st : RunStats) (d : gmap string Value)
  (column : string) : Result (gmap string Value) :=
  let n := dget 0%Z (counts st) column in
  if (n =? 0)%Z then raise ZeroDivisionError else
  let mean := dget 0 (sums st) column / inject_Z n in
  let variance := dget 0 (squared_sums st) column / inject_Z n - mean * mean in
  let std_dev := if Qle_bool variance 0 then VFloat (Fin 0) else VSqrt variance in
  ret (<[("max_" ++ column)%string := VFloat (dget NegInf (maxs st) column)]>
      (<[("std_" ++ column)%string := std_dev]>
      (<[("mean_" ++ column)%string := VFloat (Fin mean)]>
      (<[("min_" ++ column)%string := VFloat (dget PosInf (mins st) column)]> d)))).

(** Lines 51-64: [Some d] when [if counts:] holds, [None] otherwise. *)
Definition finalize (st : RunStats) : Result (option (gmap string Value)) :=
  if decide (counts st = ∅) then ret None else
  let! d := for_each (finalize_column st) ∅ columns in
  ret (Some (<["primer_counts" := VCounts (primer_counts st)]>
            (<["strand_counts" := VCounts (strand_counts st)]> d))).

(** One CSV file: the single-pass fold and its finalisation. *)
Definition aggregate_file (rows : list Row) : Result (option (gmap string Value)) :=
  let! st := fold_rows rows in finalize st.

(** Lines 26-66: [csv_data], keyed by sample name; an empty file adds
    nothing, a later non-empty file of the same name replaces the entry. *)
Definition csv_step (csv_data : gmap string (gmap string Value))
  (f : string * list Row) : Result (gmap string (gmap string Value)) :=
  let! r := aggregate_file f.2 in
  match r with
  | Some d => ret (<[f.1 := d]> csv_data)
  | None => ret csv_data
  end.

Definition load_csv (csv_files : list (string * list Row))
  : Result (gmap string (gmap string Value)) :=
  for_each csv_step ∅ csv_files.

(* ------------------------------------------------------------------ *)
(** ** Summary objects, the heap and the merge *)

(** A Python object held by reference: a dict, or another decoded JSON
    payload (a list, string, number, ...). *)
Inductive PyObj :=
| PDict (d : gmap string Value)
| PNonDict (j : json).

(** The objects reachable from [json_data] and [data], with the next free
    address. *)
Record Heap := mkHeap { objs : gmap loc PyObj; next : loc }.

Definition empty_heap : Heap := mkHeap ∅ 1%positive.

Definition alloc (h : Heap) (o : PyObj) : loc * Heap :=
  (next h, mkHeap (<[next h := o]> (objs h)) (Pos.succ (next h))).

(** Lines 22-24: [json_data[s_name] = json.load(f)], one fresh object per
    file; a later file of the same name replaces the entry. *)
Definition json_step (acc : Heap * gmap string loc) (f : string * PyObj)
  : Heap * gmap string loc :=
  let '(h, json_data) := acc in
  let '(l, h') := alloc h f.2 in
  (h', <[f.1 := l]> json_data).

Definition load_json (json_files : list (string * PyObj))
  : Heap * gmap string loc :=
  fold_left json_step json_files (empty_heap, ∅).

Inductive Log :=
| IncompatibleSampleNaming                   (* lines 68-73 *)
| KeySetMismatch (S A : gset string).         (* lines 74-79 *)

(** Lines 68-79. *)
Definition naming_check (use_filename_as_sample_name : bool)
  (json_data : gmap string loc) (csv_data : gmap string (gmap string Value))
  : list Log :=
  if use_filename_as_sample_name then [IncompatibleSampleNaming]
  else if decide (dom json_data = dom csv_data) then []
  else [KeySetMismatch (dom json_data) (dom csv_data)].

(** One iteration of lines 81-83:
    [data[s] = json_data.get(s, {}); data[s].update(csv_data.get(s, {}))].
    The summary dict is not copied: [data[s]] and [json_data[s]] are the
    same object, which [update] mutates. *)
Definition merge_step (json_data : gmap string loc)
  (csv_data : gmap string (gmap string Value))
  (acc : Heap * gmap string loc) (s : string) : Result (Heap * gmap string loc) :=
  let '(h, data) := acc in
  let '(l, h1) :=
    match json_data !! s with
    | Some l => (l, h)
    | None => alloc h (PDict ∅)
    end in
  match objs h1 !! l with
  | Some (PDict d) =>
      ret (mkHeap (<[l := PDict (dget ∅ csv_data s ∪ d)]> (objs h1)) (next h1),
           <[s := l]> data)
  | _ => raise AttributeError
  end.

(** Lines 68-83; the set [json_data.keys() | csv_data.keys()] is iterated in
    the order of [elements] (each key is visited once, so the order does not
    matter). *)
Definition reconcile (use_filename_as_sample_name : bool) (h : Heap)
  (json_data : gmap string loc) (csv_data : gmap string (gmap string Value))
  : list Log * Result (Heap * gmap string loc) :=
  (naming_check use_filename_as_sample_name json_data csv_data,
   for_each (merge_step json_data csv_data) (h, ∅)
     (elements (dom json_data ∪ dom csv_data))).

(** The returned [data], with each reference read from the heap. *)
Definition deref (h : Heap) (refs : gmap string loc) : gmap string PyObj :=
  omap (fun l => objs h !! l) refs.

(** [parse_refine_log()]: the log messages written and the returned [data]
    (or the exception it raises). *)
Definition parse_refine_log (use_filename_as_sample_name : bool)
  (json_files : list (string * PyObj)) (csv_files : list (string * list Row))
  : list Log * Result (gmap string PyObj) :=
  let '(h, json_data) := load_json json_files in
  match load_csv csv_files with
  | inl e => ([], inl e)
  | inr csv_data =>
      let '(logs, r) :=
        reconcile use_filename_as_sample_name h json_data csv_data in
      (logs, let! hd := r in ret (deref hd.1 hd.2))
  end.

End Refine.

(** The summaries as values: the last payload loaded for each name. *)
Definition summaries (json_files : list (string * PyObj)) : gmap string PyObj :=
  fold_left (fun m f => <[f.1 := f.2]> m) json_files ∅.

(** The summary dict of [s] before the merge ([{}] when there is none);
    [None] when the payload is not a dict. *)
Definition summary_dict (h : Heap) (json_data : gmap string loc) (s : string)
  : option (gmap string Value) :=
  match json_data !! s with
  | None => Some ∅
  | Some l => match objs h !! l with Some (PDict d) => Some d | _ => None end
  end.

(** Well-formed references: below [next], pairwise distinct, and nothing
    allocated from [next] on. *)
Definition heap_wf (h : Heap) (json_data : gmap string loc) : Prop :=
  (forall s l, json_data !! s = Some l -> (l < next h)%positive) /\
  (forall l, (next h <= l)%positive -> objs h !! l = None) /\
  (forall s1 s2 l, json_data !! s1 = Some l -> json_data !! s2 = Some l -> s1 = s2).

(* ------------------------------------------------------------------ *)
(** ** A concrete [float()] for plain decimal literals

    [decimal_float] accepts [[+-]digits[.digits]] (at least one digit) and
    rejects everything else.  It agrees with Python's [float()] on the
    strings used in the examples below ("10", "12", "abc", ...); the
    theorems themselves hold for every [py_float]. *)

Definition digit_of (a : Ascii.ascii) : option Z :=
  let n := Ascii.nat_of_ascii a in
  if (48 <=? n)%nat && (n <=? 57)%nat then Some (Z.of_nat n - 48)%Z else None.

(** Leading digits: their value, their number, and the rest. *)
Fixpoint take_digits (s : string) (acc : Z) (k : nat) : Z * nat * string :=
  match s with
  | String a r =>
      match digit_of a with
      | Some v => take_digits r (acc * 10 + v)%Z (S k)
      | None => (acc, k, s)
      end
  | EmptyString => (acc, k, s)
  end.

Definition decimal_float (s : string) : option Q :=
  let '(neg, s1) :=
    match s with
    | String "-"%char r => (true, r)
    | String "+"%char r => (false, r)
    | _ => (false, s)
    end in
  let '(ip, ni, r1) := take_digits s1 0 0 in
  let '(fp, nf, r2) :=
    match r1 with
    | String "."%char r => take_digits r 0 0
    | _ => (0%Z, 0%nat, r1)
    end in
  match r2 with
  | EmptyString =>
      if (ni + nf =? 0)%nat then None else
      let q := inject_Z (ip * 10 ^ Z.of_nat nf + fp) / inject_Z (10 ^ Z.of_nat nf) in
      Some (if neg then - q else q)
  | _ => None
  end.

(** The rows of the scenario of the spec. *)
Definition mk_row (five three polyA insert strand primer : string) : Row :=
  list_to_map
    [("fivelen", Some five); ("threelen", Some three); ("polyAlen", Some polyA);
     ("insertlen", Some insert); ("strand", Some strand); ("primer", Some primer)]%string.

Definition scenario_rows : list Row :=
  [mk_row "10" "5" "20" "500" "+" "p1"; mk_row "12" "7" "22" "520" "-" "p1"]%string.

(** The aggregate of [scenario_rows], evaluated. *)
Definition scenario_agg : gmap string Value :=
  Eval vm_compute in
  match aggregate_file decimal_float scenario_rows with
  | inr (Some d) => d
  | _ => ∅
  end.

(** The running statistics after [scenario_rows], evaluated. *)
Definition scenario_stats : RunStats :=
  Eval vm_compute in
  match fold_rows decimal_float scenario_rows with
  | inr st => st
  | inl _ => init_stats
  end.

(** The summary of [s1] in the scenario of the spec. *)
Definition scenario_summary_fields : gmap string Value :=
  {[ "num_reads_fl" := VJson (JNum 100) ]}%string.

Definition scenario_summary : PyObj := PDict scenario_summary_fields.

(* ------------------------------------------------------------------ *)
(** ** Reference definitions from the spec (for the refinement claim) *)

(** Buffering pass of a two-pass implementation: every value of one
    column, parsed with [float()]. *)
Fixpoint two_pass_buffer (py_float : string -> option Q) (c : string)
  (rows : list Row) : Result (list Q) :=
  match rows with
  | [] => ret []
  | r :: rs =>
      let! x := row_float py_float r c in
      let! xs := two_pass_buffer py_float c rs in
      ret (x :: xs)
  end.

Definition Rsum (l : list R) : R := fold_right Rplus 0%R l.


(** The names of the fields of an aggregate record. *)
Definition agg_keys : gset string :=
  list_to_set (["strand_counts"; "primer_counts"]%string ++
    concat (map (fun c => ["min_" ++ c; "mean_" ++ c; "std_" ++ c; "max_" ++ c]%string)
                columns)).

(** Sum of the counts of a frequency table. *)
Definition total (m : gmap (option string) Z) : Z :=
  map_fold (fun _ v acc => (v + acc)%Z) 0%Z m.

(** Reading one field of a result dict as a real number. *)
Definition field_num (d : gmap string Value) (k : string) : option R :=
  match d !! k with Some v => num_val v | None => None end.

(** The fields of the summary of [s] as the merge reads them:
    [json_data.get(s, {})] when it is a dict, [None] when [.update] would
    raise. *)
Definition summary_fields (M : gmap string PyObj) (s : string)
  : option (gmap string Value) :=
  match M !! s with
  | None => Some ∅
  | Some (PDict d) => Some d
  | Some (PNonDict _) => None
  end.

(** A row whose [fivelen] is not a number. *)
Definition bad_row : Row := mk_row "abc" "5" "20" "500" "+" "p1"%string.

(** The heap after loading the summary of [s1] alone. *)
Definition scenario_heap : Heap :=
  mkHeap {[ 1%positive := scenario_summary ]} 2%positive.

(* ------------------------------------------------------------------ *)
(** ** The report headers

    [headers] of [add_general_stats_refine()] (lines 88-108) and of
    [add_table_refine()] (lines 110-192), in insertion order: column key,
    then the column's display attributes.  The collaborators they are handed
    to ([general_stats_addcols], [table.plot], [add_section]) are outside
    this module. *)

Definition add_general_stats_refine_headers : list (string * list (string * string)) :=
[
  ("num_reads_fl",
     [("title", "Full-length");
      ("description", "Number of CCS where both primers have been detected");
      ("scale", "GnBu");
      ("format", "{:,.d}")]);
  ("num_reads_flnc",
     [("title", "Non-chimeric full-length");
      ("description", "Number of non-chimeric CCS where both primers have been detected");
      ("scale", "RdYlGn");
      ("format", "{:,.d}")]);
  ("num_reads_flnc_polya",
     [("title", "Poly(A) free non-chimeric full-length");
      ("description", "Number of non-chimeric CCS where both primers have been detected and the poly(A) tail has been removed");
      ("scale", "GnBu");
      ("format", "{:,.d}")])
]%string.

Definition add_table_refine_headers : list (string * list (string * string)) :=
[
  ("min_fivelen",
     [("title", "Min 5' primer length");
      ("description", "The minimum 5' primer length in base pair");
      ("scale", "GnBu")]);
  ("mean_fivelen",
     [("title", "Mean 5' primer length");
      ("description", "The mean 5' primer length in base pair");
      ("scale", "RdYlGn")]);
  ("std_fivelen",
     [("title", "Std of 5' primer length");
      ("description", "The standard deviation of 5' primer length in base pair");
      ("scale", "GnBu")]);
  ("max_fivelen",
     [("title", "Max 5' primer length");
      ("description", "The maximum 5' primer length in base pair");
      ("scale", "GnBu")]);
  ("min_threelen",
     [("title", "Min 3' primer length");
      ("description", "The minimum 3' primer length in base pair");
      ("scale", "GnBu")]);
  ("mean_threelen",
     [("title", "Mean 3' primer length");
      ("description", "The mean 3' primer length in base pair");
      ("scale", "RdYlGn")]);
  ("std_threelen",
     [("title", "Std of 3' primer length");
      ("description", "The standard deviation of 3' primer length in base pair");
      ("scale", "GnBu")]);
  ("max_threelen",
     [("title", "Max 3' primer length");
      ("description", "The maximum 3' primer length in base pair");
      ("scale", "RdYlGn")]);
  ("min_polyAlen",
     [("title", "Min polyA tail length");
      ("description", "The minimum polyA tail length in base pair");
      ("scale", "GnBu")]);
  ("mean_polyAlen",
     [("title", "Mean polyA tail length");
      ("description", "The mean polyA tail length in base pair");
      ("scale", "RdYlGn")]);
  ("std_polyAlen",
     [("title", "Std of polyA tail length");
      ("description", "The standard deviation of polyA tail length in base pair");
      ("scale", "GnBu")]);
  ("max_polyAlen",
     [("title", "Max polyA tail length");
      ("description", "The maximum polyA tail length in base pair");
      ("scale", "RdYlGn")]);
  ("min_insertlen",
     [("title", "Min insert length");
      ("description", "The minimum insert length in base pair");
      ("scale", "GnBu")]);
  ("mean_insertlen",
     [("title", "Mean insert length");
      ("description", "The mean insert length in base pair");
      ("scale", "RdYlGn")]);
  ("std_insertlen",
     [("title", "Std of insert length");
      ("description", "The standard deviation of insert length in base pair");
      ("scale", "GnBu")]);
  ("max_insertlen",
     [("title", "Max insert length");
      ("description", "The maximum insert length in base pair");
      ("scale", "RdYlGn")])
]%string.


(* ================================================================== *)
(** * Proofs *)

Lemma bind_inr {A B} (m : Result A) (k : A -> Result B) b :
  bind m k = inr b -> exists a, m = inr a /\ k a = inr b.
Proof. destruct m as [e|a]; simpl; [discriminate | eauto]. Qed.

Lemma bind_inr_l {A B} (a : A) (k : A -> Result B) : bind (inr a) k = k a.
Proof. reflexivity. Qed.

Lemma for_each_app {A S} (body : S -> A -> Result S) st l1 l2 :
  for_each body st (l1 ++ l2) = bind (for_each body st l1) (fun st' => for_each body st' l2).
Proof.
  revert st; induction l1 as [|x l1 IH]; intros st; simpl; [done|].
  destruct (body st x); simpl; [done | apply IH].
Qed.

(** A body that fails on [x] whatever the state makes the loop fail. *)
Lemma for_each_fail {A S} (body : S -> A -> Result S) st xs x :
  In x xs -> (forall st', exists e, body st' x = inl e) ->
  exists e, for_each body st xs = inl e.
Proof.
  revert st; induction xs as [|y xs IH]; intros st Hin Hfail; [done|].
  simpl. destruct Hin as [<-|Hin].
  - destruct (Hfail st) as [e ->]. eauto.
  - destruct (body st y); simpl; eauto.
Qed.

Ltac inv_bind H :=
  let E := fresh "E" in
  match type of H with
  | bind ?m _ = inr _ =>
      destruct m eqn:E; simpl in H; [discriminate H |]
  end.

Ltac inv_row H :=
  repeat match type of H with
  | context [row_float ?p ?r ?c] =>
      let E := fresh "E" in
      destruct (row_float p r c) eqn:E; [discriminate H |];
      unfold ret in H; repeat (rewrite bind_inr_l in H; cbv beta in H)
  | context [row_label ?r ?c] =>
      let E := fresh "E" in
      destruct (row_label r c) eqn:E; [discriminate H |];
      unfold ret in H; repeat (rewrite bind_inr_l in H; cbv beta in H)
  end.

Lemma total_insert_fresh (m : gmap (option string) Z) k v :
  m !! k = None -> total (<[k := v]> m) = (v + total m)%Z.
Proof.
  intros Hk. unfold total. rewrite map_fold_insert_L; [done | | done].
  intros; lia.
Qed.

Lemma total_bump m k : total (bump m k) = (total m + 1)%Z.
Proof.
  unfold bump, dget. destruct (m !! k) as [v|] eqn:Hk.
  - rewrite <- (insert_delete_id m k v) by done.
    rewrite insert_insert_eq.
    rewrite !total_insert_fresh by (apply lookup_delete_eq). lia.
  - rewrite total_insert_fresh by done. lia.
Qed.

Lemma total_empty : total ∅ = 0%Z.
Proof. reflexivity. Qed.

Lemma in_columns c :
  c ∈ columns <-> c = "fivelen"%string \/ c = "threelen"%string \/
                  c = "polyAlen"%string \/ c = "insertlen"%string.
Proof. unfold columns. rewrite !elem_of_cons, elem_of_nil. tauto. Qed.

Section FoldProofs.

Variable py_float : string -> option Q.

Section Projections.
Variables (st : RunStats) (c : string) (x : Q) (a b : option string).
Lemma counts_rv : counts (record_value st c x) = <[c := (dget 0 (counts st) c + 1)%Z]> (counts st).
Proof. reflexivity. Qed.
Lemma sums_rv : sums (record_value st c x) = <[c := dget 0 (sums st) c + x]> (sums st).
Proof. reflexivity. Qed.
Lemma squared_sums_rv : squared_sums (record_value st c x) =
  <[c := dget 0 (squared_sums st) c + x * x]> (squared_sums st).
Proof. reflexivity. Qed.
Lemma mins_rv : mins (record_value st c x) =
  <[c := py_min (dget PosInf (mins st) c) (Fin x)]> (mins st).
Proof. reflexivity. Qed.
Lemma maxs_rv : maxs (record_value st c x) =
  <[c := py_max (dget NegInf (maxs st) c) (Fin x)]> (maxs st).
Proof. reflexivity. Qed.
Lemma strand_counts_rv : strand_counts (record_value st c x) = strand_counts st.
Proof. reflexivity. Qed.
Lemma primer_counts_rv : primer_counts (record_value st c x) = primer_counts st.
Proof. reflexivity. Qed.
Lemma counts_rl : counts (record_labels st a b) = counts st.
Proof. reflexivity. Qed.
Lemma sums_rl : sums (record_labels st a b) = sums st.
Proof. reflexivity. Qed.
Lemma squared_sums_rl : squared_sums (record_labels st a b) = squared_sums st.
Proof. reflexivity. Qed.
Lemma mins_rl : mins (record_labels st a b) = mins st.
Proof. reflexivity. Qed.
Lemma maxs_rl : maxs (record_labels st a b) = maxs st.
Proof. reflexivity. Qed.
Lemma strand_counts_rl : strand_counts (record_labels st a b) = bump (strand_counts st) a.
Proof. reflexivity. Qed.
Lemma primer_counts_rl : primer_counts (record_labels st a b) = bump (primer_counts st) b.
Proof. reflexivity. Qed.
End Projections.

Create Rewrite HintDb stats.
#[local] Hint Rewrite counts_rv sums_rv squared_sums_rv mins_rv maxs_rv
  strand_counts_rv primer_counts_rv counts_rl sums_rl squared_sums_rl
  mins_rl maxs_rl strand_counts_rl primer_counts_rl : stats.

Lemma dget_insert_eq {K V} `{Countable K} (d : V) (m : gmap K V) k v :
  dget d (<[k := v]> m) k = v.
Proof. unfold dget. by rewrite lookup_insert_eq. Qed.

Lemma dget_insert_ne {K V} `{Countable K} (d : V) (m : gmap K V) k k' v :
  k <> k' -> dget d (<[k := v]> m) k' = dget d m k'.
Proof. intros Hne. unfold dget. by rewrite lookup_insert_ne. Qed.

Ltac dget_simp :=
  repeat match goal with
  | |- context [dget ?d (<[?k := ?v]> ?m) ?k] => rewrite (dget_insert_eq d m k v)
  | |- context [dget ?d (<[?k := ?v]> ?m) ?k'] =>
      rewrite (dget_insert_ne d m k k' v) by discriminate
  end.

(** Effect of one row on the running statistics. *)
Lemma row_step_spec st row st' :
  row_step py_float st row = inr st' ->
  (forall c, c ∈ columns -> exists x, row_float py_float row c = inr x /\
     dget 0%Z (counts st') c = (dget 0%Z (counts st) c + 1)%Z /\
     dget 0 (sums st') c = dget 0 (sums st) c + x /\
     dget 0 (squared_sums st') c = dget 0 (squared_sums st) c + x * x /\
     dget PosInf (mins st') c = py_min (dget PosInf (mins st) c) (Fin x) /\
     dget NegInf (maxs st') c = py_max (dget NegInf (maxs st) c) (Fin x)) /\
  (exists s, row_label row "strand" = inr s /\
     strand_counts st' = bump (strand_counts st) s) /\
  (exists p, row_label row "primer" = inr p /\
     primer_counts st' = bump (primer_counts st) p) /\
  is_Some (counts st' !! "fivelen"%string).
Proof.
  intros H. unfold row_step, column_step in H. cbn [for_each columns] in H.
  inv_row H. injection H as <-. autorewrite with stats.
  split; [| split; [eauto | split; [eauto |]]].
  - intros c Hc. apply in_columns in Hc.
    destruct Hc as [ -> | [ -> | [ -> | -> ]]]; eexists; (split; [eassumption|]);
      dget_simp; repeat split.
  - simplify_map_eq. eauto.
Qed.

(** Effect of a run of rows: the buffered values of each column, folded
    the way the loop folds them. *)
Lemma fold_spec rows st0 st :
  for_each (row_step py_float) st0 rows = inr st ->
  (forall c, c ∈ columns -> exists xs, two_pass_buffer py_float c rows = inr xs /\
     dget 0%Z (counts st) c = (dget 0%Z (counts st0) c + Z.of_nat (length rows))%Z /\
     dget 0 (sums st) c = fold_left Qplus xs (dget 0 (sums st0) c) /\
     dget 0 (squared_sums st) c =
       fold_left (fun a x => a + x * x) xs (dget 0 (squared_sums st0) c) /\
     dget PosInf (mins st) c =
       fold_left (fun a x => py_min a (Fin x)) xs (dget PosInf (mins st0) c) /\
     dget NegInf (maxs st) c =
       fold_left (fun a x => py_max a (Fin x)) xs (dget NegInf (maxs st0) c)) /\
  total (strand_counts st) = (total (strand_counts st0) + Z.of_nat (length rows))%Z /\
  total (primer_counts st) = (total (primer_counts st0) + Z.of_nat (length rows))%Z /\
  (rows <> [] -> is_Some (counts st !! "fivelen"%string)) /\
  (rows = [] -> st = st0).
Proof.
  revert st0. induction rows as [|r rs IH]; intros st0 H.
  - simpl in H. injection H as <-. split; [| split; [| split; [| split]]];
      try done; try (simpl; lia).
    intros c _. exists []. simpl. repeat split. lia.
  - simpl in H. apply bind_inr in H as [st1 [Hrow Hrest]].
    destruct (row_step_spec _ _ _ Hrow) as (Hcols & (s & Hs & Hstrand) &
      (p & Hp & Hprimer) & Hfive).
    destruct (IH _ Hrest) as (IHcols & IHstrand & IHprimer & IHfive & IHnil).
    split; [| split; [| split; [| split]]].
    + intros c Hc.
      destruct (Hcols c Hc) as (x & Hx & Hn & Hsum & Hsq & Hmin & Hmax).
      destruct (IHcols c Hc) as (xs & Hxs & Hn' & Hsum' & Hsq' & Hmin' & Hmax').
      exists (x :: xs). simpl. rewrite Hx, Hxs. simpl.
      rewrite Hn', Hsum', Hsq', Hmin', Hmax', Hn, Hsum, Hsq, Hmin, Hmax.
      repeat split. lia.
    + rewrite IHstrand, Hstrand, total_bump. simpl. lia.
    + rewrite IHprimer, Hprimer, total_bump. simpl. lia.
    + intros _. destruct rs as [|r' rs'].
      * rewrite (IHnil eq_refl). exact Hfive.
      * apply IHfive. discriminate.
    + discriminate.
Qed.

End FoldProofs.

Ltac lookup_simp :=
  repeat match goal with
  | |- context [(<[?k := ?v]> ?m) !! ?k] => rewrite (lookup_insert_eq m k v)
  | |- context [(<[?k := ?v]> ?m) !! ?k'] =>
      rewrite (lookup_insert_ne m k k' v) by discriminate
  end.

Ltac inv_final H :=
  repeat match type of H with
  | context [if (?n =? 0)%Z then _ else _] =>
      let E := fresh "E" in
      destruct (n =? 0)%Z eqn:E; [discriminate H |];
      unfold ret in H; repeat (rewrite bind_inr_l in H; cbv beta in H)
  end.

(** What [finalize] produces. *)
Lemma finalize_spec st r :
  finalize st = inr r ->
  (counts st = ∅ /\ r = None) \/
  (counts st <> ∅ /\ exists d, r = Some d /\ dom d = agg_keys /\
   d !! "strand_counts"%string = Some (VCounts (strand_counts st)) /\
   d !! "primer_counts"%string = Some (VCounts (primer_counts st)) /\
   forall c, c ∈ columns ->
     let n := dget 0%Z (counts st) c in
     let mean := dget 0 (sums st) c / inject_Z n in
     let variance := dget 0 (squared_sums st) c / inject_Z n - mean * mean in
     n <> 0%Z /\
     d !! ("min_" ++ c)%string = Some (VFloat (dget PosInf (mins st) c)) /\
     d !! ("mean_" ++ c)%string = Some (VFloat (Fin mean)) /\
     d !! ("std_" ++ c)%string =
       Some (if Qle_bool variance 0 then VFloat (Fin 0) else VSqrt variance) /\
     d !! ("max_" ++ c)%string = Some (VFloat (dget NegInf (maxs st) c))).
Proof.
  unfold finalize. destruct (decide (counts st = ∅)) as [He|Hne]; intros H.
  - left. injection H as <-. done.
  - right. split; [done|].
    unfold finalize_column in H. cbn [for_each columns] in H.
    inv_final H. injection H as <-. eexists; split; [reflexivity|].
    split; [| split; [| split]].
    + rewrite !dom_insert_L, dom_empty_L.
      refine (bool_decide_unpack _ _). vm_compute. exact I.
    + reflexivity.
    + reflexivity.
    + intros c Hc. apply in_columns in Hc. cbn zeta.
      destruct Hc as [ -> | [ -> | [ -> | -> ]]]; (split; [lia|]);
        repeat split; reflexivity.
Qed.



(** ** Exact arithmetic behind the statistics *)

Section Arith.

Local Open Scope R_scope.

Lemma Q2R_inject_Z z : Q2R (inject_Z z) = IZR z.
Proof. unfold Q2R, inject_Z. simpl. rewrite Rinv_1. ring. Qed.

Lemma Q2R_zero : Q2R 0 = 0.
Proof. unfold Q2R. simpl. ring. Qed.

Lemma Q2R_sum (xs : list Q) a :
  Q2R (fold_left Qplus xs a) = Q2R a + Rsum (map Q2R xs).
Proof.
  revert a; induction xs as [|x xs IH]; intros a; simpl.
  - ring.
  - rewrite IH, Q2R_plus. ring.
Qed.

Lemma Q2R_sum_squares (xs : list Q) a :
  Q2R (fold_left (fun a x => (a + x * x)%Q) xs a) =
  Q2R a + Rsum (map (fun x => x * x) (map Q2R xs)).
Proof.
  revert a; induction xs as [|x xs IH]; intros a; simpl.
  - ring.
  - rewrite IH, Q2R_plus, Q2R_mult. ring.
Qed.


Lemma Rsum_squares_nonneg (l : list R) :
  0 <= Rsum (map (fun x => x * x) l).
Proof.
  induction l as [|x l IH]; simpl; [lra|].
  pose proof (Rle_0_sqr x) as Hx. unfold Rsqr in Hx. lra.
Qed.

Lemma fold_Rmin_swap (l : list R) a x :
  fold_right Rmin (Rmin a x) l = Rmin x (fold_right Rmin a l).
Proof.
  induction l as [|y l IH]; simpl.
  - apply Rmin_comm.
  - rewrite IH, !Rmin_assoc, (Rmin_comm y x). reflexivity.
Qed.

Lemma fold_Rmax_swap (l : list R) a x :
  fold_right Rmax (Rmax a x) l = Rmax x (fold_right Rmax a l).
Proof.
  induction l as [|y l IH]; simpl.
  - apply Rmax_comm.
  - rewrite IH, !Rmax_assoc, (Rmax_comm y x). reflexivity.
Qed.

(** Python's [min] on finite floats is the real minimum. *)
Lemma py_min_fin a x : exists m, py_min (Fin a) (Fin x) = Fin m /\ Q2R m = Rmin (Q2R a) (Q2R x).
Proof.
  unfold py_min, ext_lt. destruct (Qle_bool a x) eqn:E; simpl.
  - apply Qle_bool_iff, Qle_Rle in E. exists a. split; [done|].
    symmetry. apply Rmin_left. exact E.
  - exists x. split; [done|]. symmetry. apply Rmin_right.
    assert (~ (a <= x)%Q) as Hn by (intros Hle; apply Qle_bool_iff in Hle; congruence).
    apply Qnot_le_lt, Qlt_le_weak, Qle_Rle in Hn. exact Hn.
Qed.

Lemma py_max_fin a x : exists m, py_max (Fin a) (Fin x) = Fin m /\ Q2R m = Rmax (Q2R a) (Q2R x).
Proof.
  unfold py_max, ext_lt. destruct (Qle_bool x a) eqn:E; simpl.
  - apply Qle_bool_iff, Qle_Rle in E. exists a. split; [done|].
    symmetry. apply Rmax_left. exact E.
  - exists x. split; [done|]. symmetry. apply Rmax_right.
    assert (~ (x <= a)%Q) as Hn by (intros Hle; apply Qle_bool_iff in Hle; congruence).
    apply Qnot_le_lt, Qlt_le_weak, Qle_Rle in Hn. exact Hn.
Qed.

Lemma fold_py_min (xs : list Q) a :
  exists m, fold_left (fun acc x => py_min acc (Fin x)) xs (Fin a) = Fin m /\
            Q2R m = fold_right Rmin (Q2R a) (map Q2R xs).
Proof.
  revert a; induction xs as [|x xs IH]; intros a; simpl.
  - eauto.
  - destruct (py_min_fin a x) as [m1 [-> Hm1]].
    destruct (IH m1) as [m [-> Hm]]. exists m. split; [done|].
    rewrite Hm, Hm1. apply fold_Rmin_swap.
Qed.

Lemma fold_py_max (xs : list Q) a :
  exists m, fold_left (fun acc x => py_max acc (Fin x)) xs (Fin a) = Fin m /\
            Q2R m = fold_right Rmax (Q2R a) (map Q2R xs).
Proof.
  revert a; induction xs as [|x xs IH]; intros a; simpl.
  - eauto.
  - destruct (py_max_fin a x) as [m1 [-> Hm1]].
    destruct (IH m1) as [m [-> Hm]]. exists m. split; [done|].
    rewrite Hm, Hm1. apply fold_Rmax_swap.
Qed.

End Arith.

Section AggregateProofs.

Variable py_float : string -> option Q.

Lemma dget_empty {K V} `{Countable K} (d : V) (k : K) : dget d (∅ : gmap K V) k = d.
Proof. unfold dget. by rewrite lookup_empty. Qed.

Lemma buffer_length c rows xs :
  two_pass_buffer py_float c rows = inr xs -> length xs = length rows.
Proof.
  revert xs; induction rows as [|r rs IH]; intros xs H; simpl in H.
  - injection H as <-. done.
  - apply bind_inr in H as [x [_ H]]. apply bind_inr in H as [xs' [Hxs H]].
    injection H as <-. simpl. rewrite (IH _ Hxs). done.
Qed.

(** A completed aggregate comes from a non-empty successful fold. *)
Lemma aggregate_fold rows d :
  aggregate_file py_float rows = inr (Some d) ->
  exists st, fold_rows py_float rows = inr st /\ rows <> [] /\
    finalize st = inr (Some d) /\ counts st <> ∅.
Proof.
  intros H. unfold aggregate_file in H. apply bind_inr in H as [st [Hf Hfin]].
  exists st. pose proof Hfin as Hfs. apply finalize_spec in Hfs.
  destruct Hfs as [[_ Hr] | [Hne _]]; [discriminate|].
  split; [done | split; [| done]].
  intros ->. unfold fold_rows in Hf. simpl in Hf. injection Hf as <-. done.
Qed.


Lemma Qeq_inject_Z_zero n : inject_Z n == 0 -> n = 0%Z.
Proof. unfold Qeq. simpl. lia. Qed.

(** The statistics of one column of a completed aggregate, read in exact
    arithmetic from the buffered values [xs]. *)
Lemma aggregate_column rows d c :
  aggregate_file py_float rows = inr (Some d) -> c ∈ columns ->
  exists st q0 qs, fold_rows py_float rows = inr st /\
    two_pass_buffer py_float c rows = inr (q0 :: qs) /\
    let n := dget 0%Z (counts st) c in
    let mean := dget 0 (sums st) c / inject_Z n in
    let variance := dget 0 (squared_sums st) c / inject_Z n - mean * mean in
    let L := map Q2R (q0 :: qs) in
    IZR n = INR (length L) /\ (0 < INR (length L))%R /\
    Q2R mean = (Rsum L / INR (length L))%R /\
    Q2R variance =
      (Rsum (map (fun x => x * x) L) / INR (length L) -
       (Rsum L / INR (length L)) * (Rsum L / INR (length L)))%R /\
    d !! ("mean_" ++ c)%string = Some (VFloat (Fin mean)) /\
    d !! ("std_" ++ c)%string =
      Some (if Qle_bool variance 0 then VFloat (Fin 0) else VSqrt variance) /\
    (exists m, d !! ("min_" ++ c)%string = Some (VFloat (Fin m)) /\
       Q2R m = fold_right Rmin (Q2R q0) (map Q2R qs)) /\
    (exists m, d !! ("max_" ++ c)%string = Some (VFloat (Fin m)) /\
       Q2R m = fold_right Rmax (Q2R q0) (map Q2R qs)).
Proof.
  intros H Hc.
  destruct (aggregate_fold _ _ H) as (st & Hf & Hrows & Hfin & Hne).
  pose proof Hfin as Hfs. apply finalize_spec in Hfs.
  destruct Hfs as [[He _] | [_ (d' & Hd' & _ & _ & _ & Hcols)]]; [done|].
  injection Hd' as <-.
  destruct (fold_spec py_float rows init_stats st Hf)
    as (Hcs & _ & _ & _ & _).
  destruct (Hcs c Hc) as (xs & Hxs & Hn & Hsum & Hsq & Hmin & Hmax).
  destruct (Hcols c Hc) as (Hn0 & Hmin' & Hmean' & Hstd' & Hmax').
  pose proof (buffer_length _ _ _ Hxs) as Hlen.
  destruct xs as [|q0 qs]; [destruct rows; simpl in Hlen; congruence|].
  exists st, q0, qs. split; [done|]. split; [done|].
  cbn zeta in *.
  change (dget 0%Z (counts init_stats) c) with 0%Z in Hn.
  change (dget 0 (sums init_stats) c) with 0 in Hsum.
  change (dget 0 (squared_sums init_stats) c) with 0 in Hsq.
  change (dget PosInf (mins init_stats) c) with PosInf in Hmin.
  change (dget NegInf (maxs init_stats) c) with NegInf in Hmax.
  set (n := dget 0%Z (counts st) c) in *.
  assert (HnR : IZR n = INR (length (map Q2R (q0 :: qs)))).
  { rewrite Hn, length_map, Hlen, INR_IZR_INZ. f_equal. }
  assert (Hpos : (0 < INR (length (map Q2R (q0 :: qs))))%R).
  { rewrite length_map. simpl length. apply lt_0_INR. lia. }
  assert (Hq : ~ inject_Z n == 0) by (intros E; apply Hn0, Qeq_inject_Z_zero, E).
  assert (Hmean : Q2R (dget 0 (sums st) c / inject_Z n) =
                  (Rsum (map Q2R (q0 :: qs)) / INR (length (map Q2R (q0 :: qs))))%R).
  { rewrite Q2R_div by exact Hq. rewrite Q2R_inject_Z, HnR, Hsum, Q2R_sum, Q2R_zero.
    f_equal. ring. }
  split; [exact HnR|]. split; [exact Hpos|]. split; [exact Hmean|]. split.
  { rewrite Q2R_minus, Q2R_mult, Hmean, Q2R_div by exact Hq.
    rewrite Q2R_inject_Z, HnR, Hsq, Q2R_sum_squares, Q2R_zero.
    f_equal. f_equal. ring. }
  split; [exact Hmean'|]. split; [exact Hstd'|].
  split.
  - rewrite Hmin in Hmin'. cbn [fold_left] in Hmin'.
    change (py_min PosInf (Fin q0)) with (Fin q0) in Hmin'.
    destruct (fold_py_min qs q0) as (m & Em & Hm). rewrite Em in Hmin'. eauto.
  - rewrite Hmax in Hmax'. cbn [fold_left] in Hmax'.
    change (py_max NegInf (Fin q0)) with (Fin q0) in Hmax'.
    destruct (fold_py_max qs q0) as (m & Em & Hm). rewrite Em in Hmax'. eauto.
Qed.

End AggregateProofs.

(* ------------------------------------------------------------------ *)
(** ** C1, C5: the single-pass statistics *)



(** C5 (variance clamp).  For every CSV yielding an aggregate and every
    column, the reported standard deviation is a real number >= 0: it is
    sqrt(squared_sums/counts - mean^2) when that variance is > 0, and
    exactly 0.0 otherwise. *)
Theorem std_dev_clamped (py_float : string -> option Q)
  (rows : list Row) (d : gmap string Value) :
  aggregate_file py_float rows = inr (Some d) ->
  forall c, c ∈ columns ->
  exists st v r, fold_rows py_float rows = inr st /\
    d !! ("std_" ++ c)%string = Some v /\ num_val v = Some r /\ (0 <= r)%R /\
    let n := dget 0%Z (counts st) c in
    let mean := dget 0 (sums st) c / inject_Z n in
    let variance := dget 0 (squared_sums st) c / inject_Z n - mean * mean in
    ((0 < variance /\ v = VSqrt variance /\ r = sqrt (Q2R variance)) \/
     (variance <= 0 /\ v = VFloat (Fin 0) /\ r = 0%R)).
Proof.
  intros H c Hc.
  destruct (aggregate_column py_float rows d c H Hc)
    as (st & q0 & qs & Hf & _ & _ & _ & _ & _ & _ & Estd & _ & _).
  cbn zeta in *.
  set (variance := dget 0 (squared_sums st) c /
                   inject_Z (dget 0%Z (counts st) c) -
                   dget 0 (sums st) c / inject_Z (dget 0%Z (counts st) c) *
                   (dget 0 (sums st) c / inject_Z (dget 0%Z (counts st) c))) in *.
  destruct (Qle_bool variance 0) eqn:E.
  - exists st, (VFloat (Fin 0)), 0%R.
    split; [done|]. split; [done|]. split; [simpl; rewrite Q2R_zero; done|].
    split; [lra|]. right. apply Qle_bool_iff in E. done.
  - assert (0 < variance) as Hlt.
    { apply Qnot_le_lt. intros Hle. apply Qle_bool_iff in Hle. congruence. }
    exists st, (VSqrt variance), (sqrt (Q2R variance)).
    split; [done|]. split; [done|]. split; [done|].
    split; [apply sqrt_pos|]. left. done.
Qed.

Lemma std_dev_clamped_witness :
  aggregate_file decimal_float scenario_rows = inr (Some scenario_agg) /\
  exists st v r, fold_rows decimal_float scenario_rows = inr st /\
    scenario_agg !! ("std_" ++ "insertlen")%string = Some v /\
    num_val v = Some r /\ (0 <= r)%R /\
    let n := dget 0%Z (counts st) "insertlen" in
    let mean := dget 0 (sums st) "insertlen" / inject_Z n in
    let variance := dget 0 (squared_sums st) "insertlen" / inject_Z n - mean * mean in
    ((0 < variance /\ v = VSqrt variance /\ r = sqrt (Q2R variance)) \/
     (variance <= 0 /\ v = VFloat (Fin 0) /\ r = 0%R)).
Proof.
  split.
  - reflexivity.
  - apply (std_dev_clamped decimal_float scenario_rows scenario_agg).
    + reflexivity.
    + unfold columns. right. right. right. left.
Defined.

(* ------------------------------------------------------------------ *)
(** ** C7: categorical completeness *)

(** C7 (categorical completeness).  At every step of the fold over a CSV
    whose rows parse (every prefix of the rows), the counts of
    [strand_counts] and of [primer_counts] each sum to the number of rows
    consumed, which is also the count of every numeric column; on the whole
    stream they all equal its length. *)
Theorem label_counts_complete (py_float : string -> option Q)
  (rows : list Row) (st : RunStats) :
  fold_rows py_float rows = inr st ->
  (forall k, (k <= length rows)%nat -> exists stk,
     fold_rows py_float (take k rows) = inr stk /\
     total (strand_counts stk) = Z.of_nat k /\
     total (primer_counts stk) = Z.of_nat k /\
     forall c, c ∈ columns -> dget 0%Z (counts stk) c = Z.of_nat k) /\
  total (strand_counts st) = Z.of_nat (length rows) /\
  total (primer_counts st) = Z.of_nat (length rows) /\
  forall c, c ∈ columns -> dget 0%Z (counts st) c = Z.of_nat (length rows).
Proof.
  intros H.
  assert (Hcount : forall l s, fold_rows py_float l = inr s ->
    total (strand_counts s) = Z.of_nat (length l) /\
    total (primer_counts s) = Z.of_nat (length l) /\
    forall c, c ∈ columns -> dget 0%Z (counts s) c = Z.of_nat (length l)).
  { intros l s Hl.
    destruct (fold_spec py_float l init_stats s Hl) as (Hc & Hs & Hp & _ & _).
    split; [rewrite Hs; reflexivity|]. split; [rewrite Hp; reflexivity|].
    intros c Hin. destruct (Hc c Hin) as (xs & _ & Hn & _).
    rewrite Hn. reflexivity. }
  split; [| exact (Hcount rows st H)].
  intros k Hk.
  unfold fold_rows in H. rewrite <- (take_drop k rows), for_each_app in H.
  apply bind_inr in H as [stk [Hk' _]].
  exists stk. split; [exact Hk'|].
  rewrite <- (length_take_le rows k) by exact Hk.
  exact (Hcount _ _ Hk').
Qed.

Lemma label_counts_complete_witness :
  fold_rows decimal_float scenario_rows = inr scenario_stats /\
  ((forall k, (k <= length scenario_rows)%nat -> exists stk,
     fold_rows decimal_float (take k scenario_rows) = inr stk /\
     total (strand_counts stk) = Z.of_nat k /\
     total (primer_counts stk) = Z.of_nat k /\
     forall c, c ∈ columns -> dget 0%Z (counts stk) c = Z.of_nat k) /\
  total (strand_counts scenario_stats) = Z.of_nat (length scenario_rows) /\
  total (primer_counts scenario_stats) = Z.of_nat (length scenario_rows) /\
  forall c, c ∈ columns ->
    dget 0%Z (counts scenario_stats) c = Z.of_nat (length scenario_rows)).
Proof.
  split.
  - reflexivity.
  - apply (label_counts_complete decimal_float scenario_rows scenario_stats).
    reflexivity.
Defined.

(* ------------------------------------------------------------------ *)
(** ** Loading the summaries *)

Lemma load_json_spec_gen (jf : list (string * PyObj)) (h0 : Heap)
  (J0 : gmap string loc) (M0 : gmap string PyObj) :
  heap_wf h0 J0 ->
  (forall s, J0 !! s ≫= (fun l => objs h0 !! l) = M0 !! s) ->
  dom J0 = dom M0 ->
  let '(h, J) := fold_left json_step jf (h0, J0) in
  heap_wf h J /\
  (forall s, J !! s ≫= (fun l => objs h !! l) =
             fold_left (fun m f => <[f.1 := f.2]> m) jf M0 !! s) /\
  dom J = dom (fold_left (fun m f => <[f.1 := f.2]> m) jf M0).
Proof.
  revert h0 J0 M0. induction jf as [|[s p] jf IH]; intros h0 J0 M0 Hwf Hd Hdom;
    [exact (conj Hwf (conj Hd Hdom))|].
  simpl. apply IH.
  - destruct Hwf as (Hlt & Hfree & Hinj). split; [| split].
    + intros s' l Hl. simpl. destruct (decide (s' = s)) as [->|Hne].
      * rewrite lookup_insert_eq in Hl. injection Hl as <-. lia.
      * rewrite lookup_insert_ne in Hl by congruence. specialize (Hlt _ _ Hl). lia.
    + intros l Hl. simpl in *. rewrite lookup_insert_ne by lia. apply Hfree. lia.
    + intros s1 s2 l H1 H2.
      destruct (decide (s1 = s)) as [->|Hne1]; destruct (decide (s2 = s)) as [->|Hne2];
        try done.
      * rewrite lookup_insert_eq in H1. rewrite lookup_insert_ne in H2 by congruence.
        injection H1 as <-. specialize (Hlt _ _ H2). lia.
      * rewrite lookup_insert_eq in H2. rewrite lookup_insert_ne in H1 by congruence.
        injection H2 as <-. specialize (Hlt _ _ H1). lia.
      * rewrite lookup_insert_ne in H1, H2 by congruence. eauto.
  - intros s'. simpl. destruct (decide (s' = s)) as [->|Hne].
    + rewrite !lookup_insert_eq. simpl. by rewrite lookup_insert_eq.
    + rewrite !lookup_insert_ne by congruence.
      destruct (J0 !! s') as [l|] eqn:El; simpl; [| by rewrite <- Hd, El].
      destruct Hwf as (Hlt & _ & _). specialize (Hlt _ _ El).
      rewrite lookup_insert_ne by lia. rewrite <- Hd, El. done.
  - simpl. rewrite !dom_insert_L, Hdom. done.
Qed.

Lemma load_json_spec (jf : list (string * PyObj)) :
  let '(h, J) := load_json jf in
  heap_wf h J /\
  (forall s, J !! s ≫= (fun l => objs h !! l) = summaries jf !! s) /\
  dom J = dom (summaries jf).
Proof.
  apply load_json_spec_gen.
  - split; [| split]; intros *; rewrite ?lookup_empty; done.
  - intros s. rewrite !lookup_empty. done.
  - rewrite !dom_empty_L. done.
Qed.

(* ------------------------------------------------------------------ *)
(** ** The merge loop *)

Lemma merge_step_spec (J : gmap string loc) (C : gmap string (gmap string Value))
  h data0 s h2 data1 :
  merge_step J C (h, data0) s = inr (h2, data1) ->
  exists l d, summary_dict h J s = Some d /\ data1 = <[s := l]> data0 /\
    (forall l0, J !! s = Some l0 -> l = l0) /\
    (J !! s = None -> l = next h) /\
    objs h2 !! l = Some (PDict (dget ∅ C s ∪ d)) /\
    (forall l', l' <> l -> objs h2 !! l' = objs h !! l') /\
    (next h <= next h2)%positive /\
    ((forall l', (next h <= l')%positive -> objs h !! l' = None) ->
     (forall l', (next h2 <= l')%positive -> objs h2 !! l' = None) /\ (l < next h2)%positive /\
     (J !! s = Some l \/ (objs h !! l = None /\ l < next h2)%positive)).
Proof.
  unfold merge_step, summary_dict. intros H.
  destruct (J !! s) as [l|] eqn:Js.
  - destruct (objs h !! l) as [[d|j]|] eqn:Hl; try discriminate.
    injection H as <- <-. exists l, d. simpl.
    split; [done|]. split; [done|]. split; [congruence|]. split; [done|].
    split; [by rewrite lookup_insert_eq|].
    split; [intros l' Hne; by rewrite lookup_insert_ne by congruence|].
    split; [lia|].
    intros Hfree. split; [intros l' Hl'; rewrite lookup_insert_ne; [by apply Hfree|];
      intros ->; rewrite Hfree in Hl by lia; discriminate|].
    split; [|by left].
    destruct (Pos.lt_total l (next h)) as [Hlt|[Heq|Hgt]]; [done| |];
      rewrite Hfree in Hl by lia; discriminate.
  - simpl in H. rewrite lookup_insert_eq in H. injection H as <- <-.
    exists (next h), ∅. simpl.
    split; [done|]. split; [done|]. split; [done|]. split; [done|].
    split; [by rewrite lookup_insert_eq|].
    split; [intros l' Hne; by rewrite insert_insert_eq, lookup_insert_ne by congruence|].
    split; [lia|].
    intros Hfree. split; [|split; [lia|]].
    + intros l' Hl'. rewrite insert_insert_eq, lookup_insert_ne by lia. apply Hfree. lia.
    + right. split; [apply Hfree; lia | lia].
Qed.

Lemma merge_step_frame (J : gmap string loc) C h data0 s h2 data1 s' :
  heap_wf h J -> s' <> s ->
  merge_step J C (h, data0) s = inr (h2, data1) ->
  summary_dict h2 J s' = summary_dict h J s'.
Proof.
  intros (Hlt & Hfree & Hinj) Hne Hstep.
  destruct (merge_step_spec J C h data0 s h2 data1 Hstep)
    as (l & d & _ & _ & Hl0 & Hnone & _ & Hframe & _ & _).
  unfold summary_dict. destruct (J !! s') as [l'|] eqn:Js'; [|done].
  rewrite Hframe; [done|]. intros ->.
  destruct (J !! s) as [l0|] eqn:Js.
  - rewrite <- (Hl0 l0 eq_refl) in Js. apply Hne. eapply Hinj; eauto.
  - rewrite (Hnone eq_refl) in Js'. apply Hlt in Js'. lia.
Qed.

Lemma merge_loop_spec (J : gmap string loc) (C : gmap string (gmap string Value))
  (ks : list string) :
  forall h data0 h' data,
  NoDup ks -> heap_wf h J ->
  (forall s, s ∈ ks -> data0 !! s = None) ->
  for_each (merge_step J C) (h, data0) ks = inr (h', data) ->
  heap_wf h' J /\ (next h <= next h')%positive /\
  (forall s, s ∉ ks -> data !! s = data0 !! s) /\
  (forall s, s ∈ ks -> exists l d, summary_dict h J s = Some d /\
     data !! s = Some l /\ (forall l0, J !! s = Some l0 -> l = l0) /\
     objs h' !! l = Some (PDict (dget ∅ C s ∪ d))) /\
  (forall l, (forall s l0, s ∈ ks -> J !! s = Some l0 -> l <> l0) ->
     (l < next h)%positive -> objs h' !! l = objs h !! l).
Proof.
  induction ks as [|s ks IH]; intros h data0 h' data Hnd Hwf Hd0 Hloop.
  - injection Hloop as <- <-. split; [done|]. split; [lia|].
    split; [done|]. split; [|done]. intros s Hs. by apply elem_of_nil in Hs.
  - apply NoDup_cons in Hnd as [Hs Hnd].
    simpl in Hloop. apply bind_inr in Hloop as ([h2 data1] & Hstep & Hloop).
    pose proof Hwf as (Hlt & Hfree & Hinj).
    destruct (merge_step_spec J C h data0 s h2 data1 Hstep)
      as (l & d & Hsd & -> & Hl0 & Hnone & Hl & Hframe & Hnext & Hfree').
    destruct (Hfree' Hfree) as (Hfree2 & Hl2 & _).
    assert (Hwf2 : heap_wf h2 J).
    { split; [intros s1 l1 Hs1; apply Hlt in Hs1; lia|]. split; [done|done]. }
    assert (Hd1 : forall s', s' ∈ ks -> <[s:=l]> data0 !! s' = None).
    { intros s' Hs'. rewrite lookup_insert_ne by (intros ->; done).
      apply Hd0. apply elem_of_cons. by right. }
    destruct (IH h2 _ h' data Hnd Hwf2 Hd1 Hloop)
      as (Hwf' & Hnext' & Hout & Hin & Hframe').
    (* the location written for [s] is not touched by the later keys *)
    assert (Hl_safe : forall s' l0, s' ∈ ks -> J !! s' = Some l0 -> l <> l0).
    { intros s' l0 Hs' Js' ->. destruct (J !! s) as [l1|] eqn:Js.
      - rewrite <- (Hl0 l1 eq_refl) in Js. assert (s' = s) as -> by eauto.
        done.
      - rewrite (Hnone eq_refl) in Js'. apply Hlt in Js'. lia. }
    split; [done|]. split; [lia|].
    split.
    { intros s' Hs'. rewrite Hout by (intros ?; apply Hs'; apply elem_of_cons; by right).
      rewrite lookup_insert_ne; [done|]. intros ->. apply Hs', elem_of_cons. by left. }
    split.
    { intros s' Hs'. apply elem_of_cons in Hs' as [->|Hs'].
      - exists l, d. split; [done|]. split.
        + rewrite Hout by done. by rewrite lookup_insert_eq.
        + split; [done|]. rewrite Hframe'; [done|exact Hl_safe|exact Hl2].
      - destruct (Hin s' Hs') as (l' & d' & Hsd' & Hdat & Hl0' & Hobj).
        exists l', d'. split; [|done].
        rewrite <- Hsd'. symmetry. eapply merge_step_frame; [done| |done].
        intros ->. done. }
    intros l' Hl' Hlt'. rewrite Hframe'.
    + apply Hframe. intros ->. destruct (J !! s) as [l1|] eqn:Js.
      * rewrite <- (Hl0 l1 eq_refl) in Js.
        apply (Hl' s l); [apply elem_of_cons; by left | done | done].
      * rewrite (Hnone eq_refl) in Hlt'. lia.
    + intros s' l0 Hs' Js'. apply (Hl' s'); [apply elem_of_cons; by right | done].
    + lia.
Qed.

(* ------------------------------------------------------------------ *)
(** ** Loading, reconciliation and the returned map *)

Lemma bind_ret_r {A} (m : Result A) : bind m ret = m.
Proof. by destruct m. Qed.

Lemma summary_dict_load jf h J s :
  load_json jf = (h, J) -> summary_dict h J s = summary_fields (summaries jf) s.
Proof.
  intros EJ. pose proof (load_json_spec jf) as HJ. rewrite EJ in HJ.
  destruct HJ as (_ & Hm & Hdom). specialize (Hm s).
  unfold summary_dict, summary_fields. rewrite <- Hm.
  destruct (J !! s) as [l|] eqn:Js; simpl; [|done].
  destruct (objs h !! l) as [[]|] eqn:Hl; [done|done|].
  simpl in Hm. rewrite Hl in Hm.
  assert (Hs : s ∈ dom J) by (apply elem_of_dom; eauto).
  rewrite Hdom in Hs. apply elem_of_dom in Hs as [o Ho]. congruence.
Qed.

Lemma aggregate_empty py_float : aggregate_file py_float [] = inr None.
Proof. reflexivity. Qed.

Lemma aggregate_dom py_float rows d :
  aggregate_file py_float rows = inr (Some d) -> dom d = agg_keys.
Proof.
  intros H. apply aggregate_fold in H as (st & _ & _ & Hfin & _).
  apply finalize_spec in Hfin as [[_ Hr] | [_ (d' & Hr & Hdom & _)]];
    [discriminate | by injection Hr as <-].
Qed.

Lemma load_csv_app py_float cf s rows :
  load_csv py_float (cf ++ [(s, rows)]) =
  let! C := load_csv py_float cf in
  let! r := aggregate_file py_float rows in
  ret (match r with Some d => <[s := d]> C | None => C end).
Proof.
  unfold load_csv. rewrite for_each_app. destruct (for_each _ _ cf) as [e|C]; [done|].
  simpl. unfold csv_step. simpl. destruct (aggregate_file py_float rows) as [e|[d|]]; done.
Qed.

Lemma for_each_csv_entries py_float cf C0 C :
  for_each (csv_step py_float) C0 cf = inr C ->
  (forall s a, C0 !! s = Some a -> dom a = agg_keys) ->
  forall s a, C !! s = Some a -> dom a = agg_keys.
Proof.
  revert C0. induction cf as [|[s1 rows] cf IH]; intros C0 Hl Hinv.
  - by injection Hl as <-.
  - simpl in Hl. apply bind_inr in Hl as (C1 & Hstep & Hl).
    apply (IH C1 Hl). unfold csv_step in Hstep. simpl in Hstep.
    apply bind_inr in Hstep as ([d|] & Hagg & Hr); injection Hr as <-; [|done].
    intros s a Hs. destruct (decide (s = s1)) as [->|Hne].
    + rewrite lookup_insert_eq in Hs. injection Hs as <-. by eapply aggregate_dom.
    + rewrite lookup_insert_ne in Hs by congruence. eauto.
Qed.

(** Every entry of [csv_data] is a complete aggregate record. *)
Lemma load_csv_entries py_float cf C s a :
  load_csv py_float cf = inr C -> C !! s = Some a -> dom a = agg_keys.
Proof.
  intros Hl. revert s a. apply (for_each_csv_entries py_float cf ∅ C Hl).
  intros s a. by rewrite lookup_empty.
Qed.

(** A sample whose CSV files are all empty gets no entry. *)
Lemma for_each_csv_absent py_float cf C0 C s :
  for_each (csv_step py_float) C0 cf = inr C ->
  (forall rows, In (s, rows) cf -> rows = []) ->
  C0 !! s = None -> C !! s = None.
Proof.
  revert C0. induction cf as [|[s1 rows] cf IH]; intros C0 Hl Hempty Hs.
  - by injection Hl as <-.
  - simpl in Hl. apply bind_inr in Hl as (C1 & Hstep & Hl).
    apply (IH C1 Hl); [intros r Hr; apply Hempty; by right|].
    unfold csv_step in Hstep. simpl in Hstep.
    apply bind_inr in Hstep as ([d|] & Hagg & Hr); injection Hr as <-; [|done].
    destruct (decide (s = s1)) as [->|Hne].
    + rewrite (Hempty rows (or_introl eq_refl)) in Hagg. discriminate.
    + by rewrite lookup_insert_ne by congruence.
Qed.

Lemma reconcile_spec flag h J C h' data :
  heap_wf h J -> snd (reconcile flag h J C) = inr (h', data) ->
  dom data = dom J ∪ dom C /\
  forall s, s ∈ dom J ∪ dom C -> exists l d, summary_dict h J s = Some d /\
    data !! s = Some l /\ (forall l0, J !! s = Some l0 -> l = l0) /\
    objs h' !! l = Some (PDict (dget ∅ C s ∪ d)).
Proof.
  intros Hwf Hr. simpl in Hr.
  destruct (merge_loop_spec J C _ h ∅ h' data (NoDup_elements _) Hwf
              (fun _ _ => lookup_empty _) Hr) as (_ & _ & Hout & Hin & _).
  split.
  - apply set_eq. intros s. rewrite elem_of_dom.
    destruct (decide (s ∈ dom J ∪ dom C)) as [Hs|Hs].
    + split; [done|]. intros _.
      destruct (Hin s (proj2 (elem_of_elements _ _) Hs)) as (l & _ & _ & -> & _). done.
    + rewrite Hout by (by rewrite elem_of_elements). rewrite lookup_empty.
      split; [by intros []|done].
  - intros s Hs. apply Hin. by apply elem_of_elements.
Qed.

(** The returned map of a successful run. *)
Lemma parse_spec py_float flag jf cf logs out :
  parse_refine_log py_float flag jf cf = (logs, inr out) ->
  exists C, load_csv py_float cf = inr C /\
    logs = naming_check flag (load_json jf).2 C /\
    dom out = dom (summaries jf) ∪ dom C /\
    forall s, s ∈ dom (summaries jf) ∪ dom C -> exists d,
      summary_fields (summaries jf) s = Some d /\
      out !! s = Some (PDict (dget ∅ C s ∪ d)).
Proof.
  unfold parse_refine_log. destruct (load_json jf) as [h J] eqn:EJ.
  destruct (load_csv py_float cf) as [e|C] eqn:EC; [discriminate|].
  destruct (reconcile flag h J C) as [lg r] eqn:ER. intros H.
  injection H as <- Hr. apply bind_inr in Hr as ([h' data] & Hr & Hout).
  injection Hout as <-.
  pose proof (load_json_spec jf) as HJ. rewrite EJ in HJ.
  destruct HJ as (Hwf & _ & Hdom).
  assert (Hrs : snd (reconcile flag h J C) = inr (h', data)) by (rewrite ER; done).
  destruct (reconcile_spec flag h J C h' data Hwf Hrs) as [Hddom Hin].
  unfold reconcile in ER. injection ER as <- _.
  exists C. split; [done|]. split; [done|]. rewrite <- Hdom.
  assert (Hlk : forall s, s ∈ dom J ∪ dom C -> exists d,
      summary_fields (summaries jf) s = Some d /\
      deref h' data !! s = Some (PDict (dget ∅ C s ∪ d))).
  { intros s Hs. destruct (Hin s Hs) as (l & d & Hsd & Hl & _ & Ho).
    exists d. rewrite <- (summary_dict_load jf h J s EJ). split; [done|].
    unfold deref. rewrite lookup_omap, Hl. done. }
  split; [|done].
  apply set_eq. intros s. rewrite elem_of_dom. split.
  - intros [o Ho]. rewrite <- Hddom. apply elem_of_dom.
    unfold deref in Ho. rewrite lookup_omap in Ho.
    destruct (data !! s); [done | discriminate].
  - intros Hs. destruct (Hlk s Hs) as (d & _ & ->). done.
Qed.

Lemma parse_logs py_float flag jf cf :
  fst (parse_refine_log py_float flag jf cf) =
  match load_csv py_float cf with
  | inl _ => []
  | inr C => naming_check flag (load_json jf).2 C
  end.
Proof.
  unfold parse_refine_log. destruct (load_json jf) as [h J].
  destruct (load_csv py_float cf); reflexivity.
Qed.

Lemma naming_check_dom flag (J J' : gmap string loc) (C C' : gmap string (gmap string Value)) :
  dom J = dom J' -> dom C = dom C' -> naming_check flag J C = naming_check flag J' C'.
Proof. intros HJ HC. unfold naming_check. by rewrite HJ, HC. Qed.

Lemma load_json_dom jf : dom (load_json jf).2 = dom (summaries jf).
Proof.
  pose proof (load_json_spec jf) as H. destruct (load_json jf) as [h J].
  apply H.
Qed.

Lemma dget_none {K V} `{Countable K} (d : V) (m : gmap K V) k :
  m !! k = None -> dget d m k = d.
Proof. unfold dget. by intros ->. Qed.

Lemma dget_some {K V} `{Countable K} (d : V) (m : gmap K V) k v :
  m !! k = Some v -> dget d m k = v.
Proof. unfold dget. by intros ->. Qed.

(* ================================================================== *)
(** ** C2, C3, C4, C6, C8, C9, C10: loading and reconciliation *)

(** C2 (amended).  Once the CSV files load, the log holds at most one
    message, and it is a [KeySetMismatch] exactly when the naming flag is
    unset and the key set [S] of the summaries differs from the key set [A]
    of the aggregates; that message lists [S] and [A].  When the flag is set
    only [IncompatibleSampleNaming] is logged, whatever the key sets.  A
    returned map has the key set [S ∪ A]. *)
Theorem key_set_mismatch_iff (py_float : string -> option Q) (flag : bool)
  (jf : list (string * PyObj)) (cf : list (string * list Row))
  (C : gmap string (gmap string Value)) :
  load_csv py_float cf = inr C ->
  let logs := fst (parse_refine_log py_float flag jf cf) in
  (length logs <= 1)%nat /\
  ((exists S A, In (KeySetMismatch S A) logs) <->
   flag = false /\ dom (summaries jf) <> dom C) /\
  (forall S A, In (KeySetMismatch S A) logs -> S = dom (summaries jf) /\ A = dom C) /\
  (forall out, snd (parse_refine_log py_float flag jf cf) = inr out ->
   dom out = dom (summaries jf) ∪ dom C).
Proof.
  intros HC. cbv zeta.
  assert (Hout : forall out, snd (parse_refine_log py_float flag jf cf) = inr out ->
                 dom out = dom (summaries jf) ∪ dom C).
  { intros out Hr.
    destruct (parse_refine_log py_float flag jf cf) as [lg r] eqn:E.
    simpl in Hr. subst r.
    destruct (parse_spec py_float flag jf cf _ out E) as (C' & HC' & _ & Hdom & _).
    rewrite HC in HC'. injection HC' as <-. done. }
  rewrite parse_logs, HC. cbv iota beta. unfold naming_check. rewrite load_json_dom.
  destruct flag; [| destruct (decide (dom (summaries jf) = dom C)) as [Heq|Hne]].
  - split; [simpl; lia|]. split; [| split; [|done]].
    + split; [intros (S & A & [H|[]]); discriminate | intros [H _]; discriminate].
    + intros S A [H|[]]. discriminate.
  - split; [simpl; lia|]. split; [| split; [|done]].
    + split; [intros (S & A & [])| intros [_ H]; done].
    + intros S A [].
  - split; [simpl; lia|]. split; [| split; [|done]].
    + split; [done | intros _; eauto using in_eq].
    + intros S A [H|[]]. by injection H as <- <-.
Qed.

(** A key-set mismatch with the flag unset: summary [s2], aggregate [s3]. *)
Lemma key_set_mismatch_iff_witness :
  load_csv decimal_float [("s3"%string, scenario_rows)] =
    inr {[ "s3"%string := scenario_agg ]} /\
  let logs := fst (parse_refine_log decimal_float false
                     [("s2"%string, scenario_summary)] [("s3"%string, scenario_rows)]) in
  (length logs <= 1)%nat /\
  ((exists S A, In (KeySetMismatch S A) logs) <->
   false = false /\ dom (summaries [("s2"%string, scenario_summary)]) <>
                    dom ({[ "s3"%string := scenario_agg ]} : gmap string (gmap string Value))) /\
  (forall S A, In (KeySetMismatch S A) logs ->
     S = dom (summaries [("s2"%string, scenario_summary)]) /\
     A = dom ({[ "s3"%string := scenario_agg ]} : gmap string (gmap string Value))) /\
  (forall out, snd (parse_refine_log decimal_float false
                      [("s2"%string, scenario_summary)] [("s3"%string, scenario_rows)]) = inr out ->
   dom out = dom (summaries [("s2"%string, scenario_summary)]) ∪
             dom ({[ "s3"%string := scenario_agg ]} : gmap string (gmap string Value))).
Proof.
  assert (HC : load_csv decimal_float [("s3"%string, scenario_rows)] =
                 inr {[ "s3"%string := scenario_agg ]}) by reflexivity.
  split; [exact HC|].
  exact (key_set_mismatch_iff decimal_float false _ _ _ HC).
Defined.

(** C2 fails as stated: with the naming flag set, summary [s2] and
    aggregate [s3] differ, yet the only message is
    [IncompatibleSampleNaming]; the returned map has both keys. *)
Lemma key_set_mismatch_iff_counterexample :
  parse_refine_log decimal_float true
    [("s2"%string, scenario_summary)] [("s3"%string, scenario_rows)] =
  ([IncompatibleSampleNaming],
   inr {[ "s2"%string := scenario_summary; "s3"%string := PDict scenario_agg ]}).
Proof. vm_compute. reflexivity. Qed.

(** C3 (amended).  A field of [columns] that [float()] rejects in any row
    of any CSV file raises out of [parse_refine_log]: the call logs nothing
    and returns no map at all, so no other sample is returned either. *)
Theorem malformed_field_aborts_batch (py_float : string -> option Q) (flag : bool)
  (jf : list (string * PyObj)) (cf : list (string * list Row))
  (s : string) (rows : list Row) (row : Row) (c : string) :
  In (s, rows) cf -> In row rows -> In c columns ->
  (exists e, row_float py_float row c = inl e) ->
  exists e, parse_refine_log py_float flag jf cf = ([], inl e).
Proof.
  intros Hf Hr Hc [e0 He0].
  assert (Hcsv : exists e, load_csv py_float cf = inl e).
  { unfold load_csv. apply (for_each_fail _ _ _ _ Hf). intros C0.
    unfold csv_step. simpl.
    destruct (for_each_fail (row_step py_float) init_stats rows row Hr) as [e He].
    { intros st. unfold row_step.
      destruct (for_each_fail (column_step py_float row) st columns c Hc) as [e1 He1].
      { intros st'. unfold column_step. rewrite He0. by exists e0. }
      rewrite He1. by exists e1. }
    unfold aggregate_file, fold_rows. rewrite He. by exists e. }
  destruct Hcsv as [e He]. exists e.
  unfold parse_refine_log. destruct (load_json jf). rewrite He. done.
Qed.

Lemma malformed_field_aborts_batch_witness :
  exists e, parse_refine_log decimal_float false [("s1"%string, scenario_summary)]
              [("s1"%string, scenario_rows); ("s2"%string, [bad_row])] = ([], inl e).
Proof.
  apply (malformed_field_aborts_batch decimal_float false _ _ "s2"%string [bad_row]
           bad_row "fivelen"%string).
  - right. left. reflexivity.
  - left. reflexivity.
  - left. reflexivity.
  - exists ValueError. reflexivity.
Defined.

(** C3 fails as stated: sample [s1] is well formed and [s2] has a
    [fivelen] that is not a number; the call raises [ValueError] and
    returns nothing for [s1]. *)
Lemma malformed_field_aborts_batch_counterexample :
  parse_refine_log decimal_float false [("s1"%string, scenario_summary)]
    [("s1"%string, scenario_rows); ("s2"%string, [bad_row])] = ([], inl ValueError).
Proof. vm_compute. reflexivity. Qed.

(** C4.  An empty row sequence finalises to nothing; a sample all of whose
    CSV files are empty gets no entry in [csv_data], and its entry in the
    returned map is its summary, unchanged ([None] when it has none): no
    placeholder field is added. *)
Theorem empty_stream_absent (py_float : string -> option Q) (flag : bool)
  (jf : list (string * PyObj)) (cf : list (string * list Row)) (s : string) :
  (forall rows, In (s, rows) cf -> rows = []) ->
  aggregate_file py_float [] = inr None /\
  (forall C, load_csv py_float cf = inr C -> C !! s = None) /\
  (forall logs out, parse_refine_log py_float flag jf cf = (logs, inr out) ->
     out !! s = summaries jf !! s).
Proof.
  intros Hempty.
  assert (Habs : forall C, load_csv py_float cf = inr C -> C !! s = None).
  { intros C HC. eapply for_each_csv_absent; [exact HC | exact Hempty | apply lookup_empty]. }
  split; [apply aggregate_empty|]. split; [done|].
  intros logs out Hp.
  destruct (parse_spec py_float flag jf cf logs out Hp) as (C & HC & _ & Hdom & Hlk).
  specialize (Habs C HC).
  destruct (summaries jf !! s) as [o|] eqn:Hs.
  - assert (Hin : s ∈ dom (summaries jf) ∪ dom C)
      by (apply elem_of_union_l, elem_of_dom; eauto).
    destruct (Hlk s Hin) as (d & Hd & ->).
    rewrite (dget_none _ _ _ Habs), (left_id_L ∅ union).
    unfold summary_fields in Hd. rewrite Hs in Hd.
    destruct o; [by injection Hd as -> | discriminate].
  - apply not_elem_of_dom. rewrite Hdom.
    apply not_elem_of_union. split; apply not_elem_of_dom; done.
Qed.

Lemma empty_stream_absent_witness :
  aggregate_file decimal_float [] = inr None /\
  (forall C, load_csv decimal_float [("s1"%string, [])] = inr C -> C !! "s1"%string = None) /\
  (forall logs out, parse_refine_log decimal_float false [("s1"%string, scenario_summary)]
                      [("s1"%string, [])] = (logs, inr out) ->
     out !! "s1"%string = summaries [("s1"%string, scenario_summary)] !! "s1"%string).
Proof.
  apply empty_stream_absent.
  intros rows [H|[]]. by injection H as <-.
Defined.

(** C6.  In a returned map, the entry of a sample is: its summary dict
    when it has no aggregate; its aggregate (the min_/mean_/std_/max_
    fields of the four columns plus [strand_counts] and [primer_counts])
    when it has no summary; and the union of both when it has both, where a
    field of the aggregate overrides a summary field of the same name.  A
    sample in neither map has no entry, and a run that returns a map had
    only dict summaries. *)
Theorem merge_field_provenance (py_float : string -> option Q) (flag : bool)
  (jf : list (string * PyObj)) (cf : list (string * list Row))
  (logs : list Log) (out : gmap string PyObj) (s : string) :
  parse_refine_log py_float flag jf cf = (logs, inr out) ->
  exists C, load_csv py_float cf = inr C /\
  (forall d, summaries jf !! s = Some (PDict d) -> C !! s = None ->
     out !! s = Some (PDict d)) /\
  (forall a, summaries jf !! s = None -> C !! s = Some a ->
     out !! s = Some (PDict a) /\ dom a = agg_keys) /\
  (forall d a, summaries jf !! s = Some (PDict d) -> C !! s = Some a ->
     out !! s = Some (PDict (a ∪ d)) /\ dom a = agg_keys /\
     forall k, (a ∪ d) !! k = match a !! k with Some v => Some v | None => d !! k end) /\
  (summaries jf !! s = None -> C !! s = None -> out !! s = None) /\
  (forall j, summaries jf !! s <> Some (PNonDict j)).
Proof.
  intros Hp.
  destruct (parse_spec py_float flag jf cf logs out Hp) as (C & HC & _ & Hdom & Hlk).
  exists C. split; [done|].
  assert (HinS : forall o, summaries jf !! s = Some o -> s ∈ dom (summaries jf) ∪ dom C)
    by (intros o Ho; apply elem_of_union_l, elem_of_dom; eauto).
  assert (HinC : forall a, C !! s = Some a -> s ∈ dom (summaries jf) ∪ dom C)
    by (intros a Ha; apply elem_of_union_r, elem_of_dom; eauto).
  split; [|split; [|split; [|split]]].
  - intros d Hs Hc. destruct (Hlk s (HinS _ Hs)) as (d' & Hd & ->).
    unfold summary_fields in Hd. rewrite Hs in Hd. injection Hd as <-.
    by rewrite (dget_none _ _ _ Hc), (left_id_L ∅ union).
  - intros a Hs Hc. destruct (Hlk s (HinC _ Hc)) as (d' & Hd & ->).
    unfold summary_fields in Hd. rewrite Hs in Hd. injection Hd as <-.
    rewrite (dget_some _ _ _ _ Hc), (right_id_L ∅ union). split; [done|].
    by eapply load_csv_entries.
  - intros d a Hs Hc. destruct (Hlk s (HinC _ Hc)) as (d' & Hd & ->).
    unfold summary_fields in Hd. rewrite Hs in Hd. injection Hd as <-.
    rewrite (dget_some _ _ _ _ Hc). split; [done|]. split; [by eapply load_csv_entries|].
    intros k. rewrite lookup_union. destruct (a !! k), (d !! k); done.
  - intros Hs Hc. apply not_elem_of_dom. rewrite Hdom.
    apply not_elem_of_union. split; apply not_elem_of_dom; done.
  - intros j Hs. destruct (Hlk s (HinS _ Hs)) as (d' & Hd & _).
    unfold summary_fields in Hd. rewrite Hs in Hd. discriminate.
Qed.

(** The scenario of the spec: [s1] has both a summary and an aggregate. *)
Lemma merge_field_provenance_witness :
  parse_refine_log decimal_float false [("s1"%string, scenario_summary)]
    [("s1"%string, scenario_rows)] =
    ([], inr {[ "s1"%string := PDict (scenario_agg ∪ scenario_summary_fields) ]}) /\
  exists C, load_csv decimal_float [("s1"%string, scenario_rows)] = inr C /\
  (forall d, summaries [("s1"%string, scenario_summary)] !! "s1"%string = Some (PDict d) ->
     C !! "s1"%string = None ->
     ({[ "s1"%string := PDict (scenario_agg ∪ scenario_summary_fields) ]} : gmap string PyObj)
       !! "s1"%string = Some (PDict d)) /\
  (forall a, summaries [("s1"%string, scenario_summary)] !! "s1"%string = None ->
     C !! "s1"%string = Some a ->
     ({[ "s1"%string := PDict (scenario_agg ∪ scenario_summary_fields) ]} : gmap string PyObj)
       !! "s1"%string = Some (PDict a) /\ dom a = agg_keys) /\
  (forall d a, summaries [("s1"%string, scenario_summary)] !! "s1"%string = Some (PDict d) ->
     C !! "s1"%string = Some a ->
     ({[ "s1"%string := PDict (scenario_agg ∪ scenario_summary_fields) ]} : gmap string PyObj)
       !! "s1"%string = Some (PDict (a ∪ d)) /\ dom a = agg_keys /\
     forall k, (a ∪ d) !! k = match a !! k with Some v => Some v | None => d !! k end) /\
  (summaries [("s1"%string, scenario_summary)] !! "s1"%string = None ->
     C !! "s1"%string = None ->
     ({[ "s1"%string := PDict (scenario_agg ∪ scenario_summary_fields) ]} : gmap string PyObj)
       !! "s1"%string = None) /\
  (forall j, summaries [("s1"%string, scenario_summary)] !! "s1"%string <> Some (PNonDict j)).
Proof.
  assert (Hp : parse_refine_log decimal_float false [("s1"%string, scenario_summary)]
                 [("s1"%string, scenario_rows)] =
               ([], inr {[ "s1"%string := PDict (scenario_agg ∪ scenario_summary_fields) ]}))
    by (vm_compute; reflexivity).
  split; [exact Hp|].
  exact (merge_field_provenance decimal_float false _ _ _ _ "s1"%string Hp).
Defined.

(** C8 fails as stated: with the flag set and a CSV row whose [fivelen] is
    not a number, no [IncompatibleSampleNaming] is logged and the call
    raises [ValueError]. *)
Lemma naming_flag_logged_once_counterexample :
  parse_refine_log decimal_float true [("s1"%string, scenario_summary)]
    [("s1"%string, [bad_row])] = ([], inl ValueError).
Proof. vm_compute. reflexivity. Qed.

(** C9 (amended).  The merge does not copy the summary: for a sample with
    a dict summary [d], [data[s]] is the very object [json_data[s]], and the
    merge rewrites that object to [d] updated with the sample's aggregate.
    Only fields named like aggregate fields can change: every other summary
    field keeps its value. *)
Theorem summary_aliased_by_merge (py_float : string -> option Q) (flag : bool)
  (jf : list (string * PyObj)) (cf : list (string * list Row))
  (C : gmap string (gmap string Value)) (h h' : Heap) (J data : gmap string loc)
  (s : string) (d : gmap string Value) :
  load_json jf = (h, J) -> load_csv py_float cf = inr C ->
  snd (reconcile flag h J C) = inr (h', data) ->
  summaries jf !! s = Some (PDict d) ->
  exists l, J !! s = Some l /\ data !! s = Some l /\
    objs h !! l = Some (PDict d) /\
    objs h' !! l = Some (PDict (dget ∅ C s ∪ d)) /\
    forall k, k ∉ agg_keys -> (dget ∅ C s ∪ d) !! k = d !! k.
Proof.
  intros EJ HC Hr Hs.
  pose proof (load_json_spec jf) as HJ. rewrite EJ in HJ.
  destruct HJ as (Hwf & Hm & Hdom).
  assert (HsJ : s ∈ dom J) by (rewrite Hdom; apply elem_of_dom; eauto).
  apply elem_of_dom in HsJ as [l Js].
  specialize (Hm s). rewrite Js, Hs in Hm. simpl in Hm.
  destruct (reconcile_spec flag h J C h' data Hwf Hr) as [_ Hin].
  destruct (Hin s (elem_of_union_l _ _ _ (elem_of_dom_2 _ _ _ Js)))
    as (l' & d' & Hsd & Hl' & Hl0 & Ho).
  pose proof (Hl0 l Js) as ->.
  unfold summary_dict in Hsd. rewrite Js, Hm in Hsd. injection Hsd as <-.
  exists l. split; [done|]. split; [done|]. split; [done|]. split; [done|].
  intros k Hk. rewrite lookup_union.
  destruct (C !! s) as [a|] eqn:Hc.
  - rewrite (dget_some _ _ _ _ Hc).
    assert (Hak : a !! k = None).
    { apply not_elem_of_dom. by rewrite (load_csv_entries py_float cf C s a HC Hc). }
    rewrite Hak. by destruct (d !! k).
  - rewrite (dget_none _ _ _ Hc), lookup_empty. by destruct (d !! k).
Qed.

(** The scenario of the spec, traced through the heap. *)
Lemma summary_aliased_by_merge_witness :
  load_json [("s1"%string, scenario_summary)] =
    (scenario_heap, {[ "s1"%string := 1%positive ]}) /\
  load_csv decimal_float [("s1"%string, scenario_rows)] =
    inr {[ "s1"%string := scenario_agg ]} /\
  snd (reconcile false scenario_heap {[ "s1"%string := 1%positive ]}
         {[ "s1"%string := scenario_agg ]}) =
    inr (mkHeap {[ 1%positive := PDict (scenario_agg ∪ scenario_summary_fields) ]} 2%positive,
         {[ "s1"%string := 1%positive ]}) /\
  exists l, ({[ "s1"%string := 1%positive ]} : gmap string loc) !! "s1"%string = Some l /\
    ({[ "s1"%string := 1%positive ]} : gmap string loc) !! "s1"%string = Some l /\
    objs scenario_heap !! l = Some (PDict scenario_summary_fields) /\
    objs (mkHeap {[ 1%positive := PDict (scenario_agg ∪ scenario_summary_fields) ]} 2%positive)
      !! l = Some (PDict (dget ∅ {[ "s1"%string := scenario_agg ]} "s1"%string ∪
                          scenario_summary_fields)) /\
    forall k, k ∉ agg_keys ->
      (dget ∅ {[ "s1"%string := scenario_agg ]} "s1"%string ∪ scenario_summary_fields) !! k =
      scenario_summary_fields !! k.
Proof.
  assert (EJ : load_json [("s1"%string, scenario_summary)] =
                 (scenario_heap, {[ "s1"%string := 1%positive ]})) by reflexivity.
  assert (HC : load_csv decimal_float [("s1"%string, scenario_rows)] =
                 inr {[ "s1"%string := scenario_agg ]}) by reflexivity.
  assert (Hr : snd (reconcile false scenario_heap {[ "s1"%string := 1%positive ]}
                      {[ "s1"%string := scenario_agg ]}) =
               inr (mkHeap {[ 1%positive := PDict (scenario_agg ∪ scenario_summary_fields) ]}
                      2%positive, {[ "s1"%string := 1%positive ]}))
    by (vm_compute; reflexivity).
  split; [exact EJ|]. split; [exact HC|]. split; [exact Hr|].
  exact (summary_aliased_by_merge decimal_float false _ _ _ _ _ _ _ "s1"%string
           scenario_summary_fields EJ HC Hr eq_refl).
Defined.

(** C9 fails as stated: in the scenario of the spec, the summary object of
    [s1] after the merge is not the one loaded; it has gained the aggregate
    fields, e.g. [mean_fivelen]. *)
Lemma summary_aliased_by_merge_counterexample :
  load_json [("s1"%string, scenario_summary)] =
    (scenario_heap, {[ "s1"%string := 1%positive ]}) /\
  objs scenario_heap !! 1%positive = Some scenario_summary /\
  exists h' data,
    snd (reconcile false scenario_heap {[ "s1"%string := 1%positive ]}
           {[ "s1"%string := scenario_agg ]}) = inr (h', data) /\
    objs h' !! 1%positive <> objs scenario_heap !! 1%positive.
Proof.
  split; [reflexivity|]. split; [reflexivity|].
  eexists _, _. split; [vm_compute; reflexivity|].
  intros H.
  apply (f_equal (fun o => match o with
                           | Some (PDict m) => m !! "mean_fivelen"%string
                           | _ => None
                           end)) in H.
  vm_compute in H. discriminate.
Qed.

(** C10 (amended).  A later summary file of a sample replaces the earlier
    one, with no message.  A later CSV file of a sample replaces the earlier
    aggregate only when it has rows; an empty one leaves the earlier
    aggregate in place.  The contents of two files are never combined, and
    a repeated sample name changes no message. *)
Theorem later_file_replaces (py_float : string -> option Q) (flag : bool)
  (jf : list (string * PyObj)) (cf : list (string * list Row))
  (s : string) (p : PyObj) (rows : list Row) :
  (let '(h, J) := load_json (jf ++ [(s, p)]) in
   exists l, J !! s = Some l /\ objs h !! l = Some p) /\
  summaries (jf ++ [(s, p)]) = <[s := p]> (summaries jf) /\
  (s ∈ dom (summaries jf) ->
   fst (parse_refine_log py_float flag (jf ++ [(s, p)]) cf) =
   fst (parse_refine_log py_float flag jf cf)) /\
  load_csv py_float (cf ++ [(s, rows)]) =
    (let! C := load_csv py_float cf in
     let! r := aggregate_file py_float rows in
     ret (match r with Some d => <[s := d]> C | None => C end)) /\
  (forall C C', load_csv py_float cf = inr C ->
   load_csv py_float (cf ++ [(s, rows)]) = inr C' -> s ∈ dom C ->
   fst (parse_refine_log py_float flag jf (cf ++ [(s, rows)])) =
   fst (parse_refine_log py_float flag jf cf)).
Proof.
  assert (Hsum : summaries (jf ++ [(s, p)]) = <[s := p]> (summaries jf))
    by (unfold summaries; by rewrite fold_left_app).
  split; [|split; [done|split; [|split; [apply load_csv_app|]]]].
  - pose proof (load_json_spec (jf ++ [(s, p)])) as HJ.
    destruct (load_json (jf ++ [(s, p)])) as [h J].
    destruct HJ as (_ & Hm & _). specialize (Hm s).
    rewrite Hsum, lookup_insert_eq in Hm.
    destruct (J !! s) as [l|]; [|discriminate]. eauto.
  - intros Hs. rewrite !parse_logs.
    destruct (load_csv py_float cf) as [e|C]; [done|].
    apply naming_check_dom; [|done].
    rewrite !load_json_dom, Hsum, dom_insert_L. set_solver.
  - intros C C' HC HC' Hs. rewrite !parse_logs, HC, HC'.
    apply naming_check_dom; [done|].
    rewrite load_csv_app, HC in HC'. simpl in HC'.
    destruct (aggregate_file py_float rows) as [e|[d|]]; simpl in HC';
      [discriminate | injection HC' as <- | by injection HC' as <-].
    rewrite dom_insert_L. set_solver.
Qed.

(** C10 fails as stated: a second, empty CSV file for [s1] does not
    replace the aggregate of the first one. *)
Lemma later_file_replaces_counterexample :
  snd (parse_refine_log decimal_float false []
         [("s1"%string, scenario_rows); ("s1"%string, [])]) =
  inr {[ "s1"%string := PDict scenario_agg ]}.
Proof. vm_compute. reflexivity. Qed.

(* ================================================================== *)
(** * Further properties of the module *)

(* ------------------------------------------------------------------ *)
(** ** Helpers: extrema and sums of a buffered column *)





(* ------------------------------------------------------------------ *)
(** ** Extrema and mean of a column *)



(* ------------------------------------------------------------------ *)
(** ** The label columns *)



Lemma dget_bump (m : gmap (option string) Z) k k' :
  dget 0%Z (bump m k) k' = (dget 0%Z m k' + if decide (k = k') then 1 else 0)%Z.
Proof.
  unfold bump. destruct (decide (k = k')) as [<-|Hne].
  - rewrite dget_insert_eq. done.
  - rewrite dget_insert_ne by done. lia.
Qed.

Lemma elem_of_dom_bump (m : gmap (option string) Z) k k' :
  k' ∈ dom (bump m k) <-> k' = k \/ k' ∈ dom m.
Proof. unfold bump. rewrite dom_insert_L. set_solver. Qed.

(** The frequency tables built by a run of rows. *)
Lemma fold_labels (py_float : string -> option Q) rows st0 st :
  for_each (row_step py_float) st0 rows = inr st ->
  forall k,
  dget 0%Z (strand_counts st) k = (dget 0%Z (strand_counts st0) k +
    Z.of_nat (length (filter (fun r : Row => r !! "strand"%string = Some k) rows)))%Z /\
  dget 0%Z (primer_counts st) k = (dget 0%Z (primer_counts st0) k +
    Z.of_nat (length (filter (fun r : Row => r !! "primer"%string = Some k) rows)))%Z /\
  (k ∈ dom (strand_counts st) <->
   k ∈ dom (strand_counts st0) \/ exists r, In r rows /\ r !! "strand"%string = Some k) /\
  (k ∈ dom (primer_counts st) <->
   k ∈ dom (primer_counts st0) \/ exists r, In r rows /\ r !! "primer"%string = Some k).
Proof.
  revert st0. induction rows as [|r rs IH]; intros st0 H k.
  - injection H as <-. simpl. split; [lia|]. split; [lia|].
    split; (split; [by left | intros [? | (? & [] & _)]; done]).
  - simpl in H. apply bind_inr in H as [st1 [Hrow Hrest]].
    destruct (row_step_spec py_float _ _ _ Hrow) as (_ & (a & Ha & Hs) & (b & Hb & Hp) & _).
    unfold row_label in Ha, Hb.
    destruct (r !! "strand"%string) as [a'|] eqn:Ea; [|discriminate].
    destruct (r !! "primer"%string) as [b'|] eqn:Eb; [|discriminate].
    injection Ha as ->. injection Hb as ->.
    destruct (IH st1 Hrest k) as (IHs & IHp & IHds & IHdp).
    rewrite IHs, IHp, IHds, IHdp, Hs, Hp, !dget_bump, !elem_of_dom_bump.
    rewrite !filter_cons, Ea, Eb.
    split; [|split; [|split]].
    + destruct (decide (a = k)) as [->|Hne];
        [rewrite decide_True by done | rewrite decide_False by congruence];
        simpl length; lia.
    + destruct (decide (b = k)) as [->|Hne];
        [rewrite decide_True by done | rewrite decide_False by congruence];
        simpl length; lia.
    + split.
      * intros [[->|?]|(r' & Hr' & ?)]; [right; exists r; split; [by left|done]
          | by left | right; exists r'; split; [by right|done]].
      * intros [?|(r' & [<-|Hr'] & Hk)]; [by left; right | | by right; eauto].
        rewrite Ea in Hk. injection Hk as ->. by left; left.
    + split.
      * intros [[->|?]|(r' & Hr' & ?)]; [right; exists r; split; [by left|done]
          | by left | right; exists r'; split; [by right|done]].
      * intros [?|(r' & [<-|Hr'] & Hk)]; [by left; right | | by right; eauto].
        rewrite Eb in Hk. injection Hk as ->. by left; left.
Qed.

(** [strand_counts] and [primer_counts] of a completed aggregate count every
    label exactly: the entry of a label is the number of rows carrying it
    ([None] for a short row whose cell is missing), and the labels present
    are exactly those of the rows. *)
Theorem label_tables_exact (py_float : string -> option Q)
  (rows : list Row) (d : gmap string Value) :
  aggregate_file py_float rows = inr (Some d) ->
  exists ms mp,
    d !! "strand_counts"%string = Some (VCounts ms) /\
    d !! "primer_counts"%string = Some (VCounts mp) /\
    forall k,
    dget 0%Z ms k =
      Z.of_nat (length (filter (fun r : Row => r !! "strand"%string = Some k) rows)) /\
    dget 0%Z mp k =
      Z.of_nat (length (filter (fun r : Row => r !! "primer"%string = Some k) rows)) /\
    (k ∈ dom ms <-> exists r, In r rows /\ r !! "strand"%string = Some k) /\
    (k ∈ dom mp <-> exists r, In r rows /\ r !! "primer"%string = Some k).
Proof.
  intros H.
  destruct (aggregate_fold py_float rows d H) as (st & Hf & _ & Hfin & _).
  apply finalize_spec in Hfin as [[_ Hr] | [_ (d' & Hd' & _ & Hs & Hp & _)]];
    [discriminate|].
  injection Hd' as <-.
  exists (strand_counts st), (primer_counts st). split; [done|]. split; [done|].
  intros k. destruct (fold_labels py_float rows init_stats st Hf k)
    as (Es & Ep & Ds & Dp).
  rewrite Es, Ep, Ds, Dp.
  change (strand_counts init_stats) with (∅ : gmap (option string) Z).
  change (primer_counts init_stats) with (∅ : gmap (option string) Z).
  rewrite !dget_empty, !dom_empty_L.
  split; [lia|]. split; [lia|].
  split; (split; [intros [Hk|Hk]; [set_solver|done] | by right]).
Qed.

Lemma label_tables_exact_witness :
  aggregate_file decimal_float scenario_rows = inr (Some scenario_agg) /\
  exists ms mp,
    scenario_agg !! "strand_counts"%string = Some (VCounts ms) /\
    scenario_agg !! "primer_counts"%string = Some (VCounts mp) /\
    forall k,
    dget 0%Z ms k =
      Z.of_nat (length (filter (fun r : Row => r !! "strand"%string = Some k) scenario_rows)) /\
    dget 0%Z mp k =
      Z.of_nat (length (filter (fun r : Row => r !! "primer"%string = Some k) scenario_rows)) /\
    (k ∈ dom ms <-> exists r, In r scenario_rows /\ r !! "strand"%string = Some k) /\
    (k ∈ dom mp <-> exists r, In r scenario_rows /\ r !! "primer"%string = Some k).
Proof.
  assert (H : aggregate_file decimal_float scenario_rows = inr (Some scenario_agg))
    by reflexivity.
  split; [exact H|].
  exact (label_tables_exact decimal_float scenario_rows scenario_agg H).
Defined.

(* ------------------------------------------------------------------ *)
(** ** When the merge raises *)

Lemma merge_step_wf (J : gmap string loc) C h data0 s h2 data1 :
  heap_wf h J -> merge_step J C (h, data0) s = inr (h2, data1) -> heap_wf h2 J.
Proof.
  intros (Hlt & Hfree & Hinj) Hstep.
  destruct (merge_step_spec J C h data0 s h2 data1 Hstep)
    as (l & d & _ & _ & _ & _ & _ & _ & Hnext & Hfree').
  destruct (Hfree' Hfree) as (Hfree2 & _ & _).
  split; [intros s1 l1 Hs1; apply Hlt in Hs1; lia|]. done.
Qed.

Lemma merge_step_ok (J : gmap string loc) C h data0 s d :
  summary_dict h J s = Some d -> exists acc, merge_step J C (h, data0) s = inr acc.
Proof.
  unfold summary_dict, merge_step. intros Hs.
  destruct (J !! s) as [l|].
  - destruct (objs h !! l) as [[d'|j]|]; [eexists; reflexivity | discriminate | discriminate].
  - simpl. rewrite lookup_insert_eq. eexists; reflexivity.
Qed.

Lemma merge_step_fail (J : gmap string loc) C h data0 s :
  summary_dict h J s = None -> merge_step J C (h, data0) s = inl AttributeError.
Proof.
  unfold summary_dict, merge_step. intros Hs.
  destruct (J !! s) as [l|]; [|discriminate].
  destruct (objs h !! l) as [[d'|j]|]; [discriminate | reflexivity | reflexivity].
Qed.

Lemma merge_loop_ok (J : gmap string loc) C ks :
  forall h data0, NoDup ks -> heap_wf h J ->
  (forall s, In s ks -> summary_dict h J s <> None) ->
  exists acc, for_each (merge_step J C) (h, data0) ks = inr acc.
Proof.
  induction ks as [|s ks IH]; intros h data0 Hnd Hwf Hok; [by eexists|].
  apply NoDup_cons in Hnd as [Hs Hnd].
  destruct (summary_dict h J s) as [d|] eqn:Hd; [|by exfalso; apply (Hok s); [left|]].
  destruct (merge_step_ok J C h data0 s d Hd) as [[h2 data1] Hstep].
  cbn [for_each]. rewrite Hstep. simpl. apply IH; [done | by eapply merge_step_wf |].
  intros s' Hs'. rewrite (merge_step_frame J C h data0 s h2 data1 s' Hwf); [| |done].
  - apply Hok. by right.
  - intros ->. apply Hs. by apply list_elem_of_In.
Qed.

Lemma merge_loop_fail (J : gmap string loc) C ks :
  forall h data0, heap_wf h J ->
  (exists s, In s ks /\ summary_dict h J s = None) ->
  for_each (merge_step J C) (h, data0) ks = inl AttributeError.
Proof.
  induction ks as [|s0 ks IH]; intros h data0 Hwf (s & Hin & Hs); [done|].
  cbn [for_each]. destruct (summary_dict h J s0) as [d|] eqn:Hd.
  - destruct (merge_step_ok J C h data0 s0 d Hd) as [[h2 data1] Hstep].
    rewrite Hstep. simpl.
    assert (Hne : s <> s0) by (intros ->; congruence).
    destruct Hin as [->|Hin]; [done|].
    apply IH; [by eapply merge_step_wf|]. exists s. split; [done|].
    rewrite (merge_step_frame J C h data0 s0 h2 data1 s Hwf Hne Hstep). done.
  - rewrite (merge_step_fail J C h data0 s0 Hd). done.
Qed.

(** When [parse_refine_log] returns a map: a CSV file that raises makes the
    call return that exception (and log nothing); once the CSV files load,
    the call returns a map exactly when every summary payload is a dict, and
    raises [AttributeError] when one is not. *)
Theorem parse_outcome (py_float : string -> option Q) (flag : bool)
  (jf : list (string * PyObj)) (cf : list (string * list Row)) :
  (forall e, load_csv py_float cf = inl e ->
     parse_refine_log py_float flag jf cf = ([], inl e)) /\
  (forall C, load_csv py_float cf = inr C ->
     (forall s j, summaries jf !! s <> Some (PNonDict j)) ->
     exists out, snd (parse_refine_log py_float flag jf cf) = inr out) /\
  (forall C s j, load_csv py_float cf = inr C ->
     summaries jf !! s = Some (PNonDict j) ->
     snd (parse_refine_log py_float flag jf cf) = inl AttributeError).
Proof.
  pose proof (load_json_spec jf) as HJ.
  unfold parse_refine_log. destruct (load_json jf) as [h J] eqn:EJ.
  destruct HJ as (Hwf & _ & Hdom).
  split; [|split].
  - intros e He. rewrite He. done.
  - intros C HC Hok. rewrite HC. simpl.
    destruct (merge_loop_ok J C (elements (dom J ∪ dom C)) h ∅ (NoDup_elements _) Hwf)
      as [[h' data] Hl].
    { intros s _. rewrite (summary_dict_load jf h J s EJ). unfold summary_fields.
      destruct (summaries jf !! s) as [[d|j]|] eqn:Hs; [done | | done].
      exfalso. exact (Hok s j Hs). }
    rewrite Hl. simpl. by eexists.
  - intros C s j HC Hs. rewrite HC. simpl.
    rewrite (merge_loop_fail J C (elements (dom J ∪ dom C)) h ∅ Hwf); [done|].
    exists s. split.
    + apply list_elem_of_In, elem_of_elements, elem_of_union_l.
      rewrite Hdom. apply elem_of_dom. eauto.
    + rewrite (summary_dict_load jf h J s EJ). unfold summary_fields. by rewrite Hs.
Qed.

(* ------------------------------------------------------------------ *)
(** ** Shape of the merged [data] *)

(** The merged map does not depend on the order in which the key set
    [json_data.keys() | csv_data.keys()] is iterated: two orders of the
    same keys that both complete give the same dict for every sample. *)
Theorem merge_order_independent (J : gmap string loc)
  (C : gmap string (gmap string Value)) (h : Heap) (ks1 ks2 : list string)
  (h1 h2 : Heap) (data1 data2 : gmap string loc) :
  heap_wf h J -> NoDup ks1 -> NoDup ks2 -> (forall s, In s ks1 <-> In s ks2) ->
  for_each (merge_step J C) (h, ∅) ks1 = inr (h1, data1) ->
  for_each (merge_step J C) (h, ∅) ks2 = inr (h2, data2) ->
  deref h1 data1 = deref h2 data2.
Proof.
  intros Hwf Hnd1 Hnd2 Hks H1 H2.
  destruct (merge_loop_spec J C ks1 h ∅ h1 data1 Hnd1 Hwf (fun _ _ => lookup_empty _) H1)
    as (_ & _ & Hout1 & Hin1 & _).
  destruct (merge_loop_spec J C ks2 h ∅ h2 data2 Hnd2 Hwf (fun _ _ => lookup_empty _) H2)
    as (_ & _ & Hout2 & Hin2 & _).
  apply map_eq. intros s. unfold deref. rewrite !lookup_omap.
  destruct (decide (s ∈ ks1)) as [Hs|Hs].
  - assert (Hs2 : s ∈ ks2) by (apply list_elem_of_In, Hks, list_elem_of_In, Hs).
    destruct (Hin1 s Hs) as (l1 & d1 & Hd1 & -> & _ & Ho1).
    destruct (Hin2 s Hs2) as (l2 & d2 & Hd2 & -> & _ & Ho2).
    simpl. rewrite Ho1, Ho2. congruence.
  - assert (Hs2 : s ∉ ks2).
    { intros Hs2. apply Hs, list_elem_of_In, Hks, list_elem_of_In, Hs2. }
    rewrite (Hout1 s Hs), (Hout2 s Hs2).
    rewrite lookup_empty. done.
Qed.

Lemma merge_order_independent_witness :
  exists h1 data1 h2 data2,
  for_each (merge_step {[ "s1"%string := 1%positive ]}
              {[ "s1"%string := scenario_agg; "s2"%string := scenario_agg ]})
    (scenario_heap, ∅) ["s1"; "s2"]%string = inr (h1, data1) /\
  for_each (merge_step {[ "s1"%string := 1%positive ]}
              {[ "s1"%string := scenario_agg; "s2"%string := scenario_agg ]})
    (scenario_heap, ∅) ["s2"; "s1"]%string = inr (h2, data2) /\
  deref h1 data1 = deref h2 data2.
Proof.
  assert (Hwf : heap_wf scenario_heap {[ "s1"%string := 1%positive ]}).
  { pose proof (load_json_spec [("s1"%string, scenario_summary)]) as H.
    change (load_json [("s1"%string, scenario_summary)])
      with (scenario_heap, ({[ "s1"%string := 1%positive ]} : gmap string loc)) in H.
    apply H. }
  destruct (for_each (merge_step {[ "s1"%string := 1%positive ]}
              {[ "s1"%string := scenario_agg; "s2"%string := scenario_agg ]})
    (scenario_heap, ∅) ["s1"; "s2"]%string) as [e1|[h1 data1]] eqn:E1;
    [vm_compute in E1; discriminate|].
  destruct (for_each (merge_step {[ "s1"%string := 1%positive ]}
              {[ "s1"%string := scenario_agg; "s2"%string := scenario_agg ]})
    (scenario_heap, ∅) ["s2"; "s1"]%string) as [e2|[h2 data2]] eqn:E2;
    [vm_compute in E2; discriminate|].
  exists h1, data1, h2, data2. split; [reflexivity|]. split; [reflexivity|].
  apply (merge_order_independent {[ "s1"%string := 1%positive ]}
           {[ "s1"%string := scenario_agg; "s2"%string := scenario_agg ]}
           scenario_heap ["s1"; "s2"]%string ["s2"; "s1"]%string h1 h2 data1 data2).
  - exact Hwf.
  - apply NoDup_cons; split; [set_solver|]. apply NoDup_singleton.
  - apply NoDup_cons; split; [set_solver|]. apply NoDup_singleton.
  - intros s. simpl. tauto.
  - exact E1.
  - exact E2.
Defined.

(** Invariant of the merge loop: every reference is allocated, is either
    the sample's own summary or an object no summary uses, and no two
    samples share one. *)
Definition refs_ok (J : gmap string loc) (h : Heap) (data : gmap string loc) : Prop :=
  (forall s l, data !! s = Some l -> (l < next h)%positive) /\
  (forall s l, data !! s = Some l -> J !! s = Some l \/ forall s', J !! s' <> Some l) /\
  (forall s1 s2 l, data !! s1 = Some l -> data !! s2 = Some l -> s1 = s2).

Lemma merge_loop_refs (J : gmap string loc) C ks :
  forall h data0 h' data,
  NoDup ks -> heap_wf h J -> (forall s, s ∈ ks -> data0 !! s = None) ->
  refs_ok J h data0 ->
  for_each (merge_step J C) (h, data0) ks = inr (h', data) -> refs_ok J h' data.
Proof.
  induction ks as [|s ks IH]; intros h data0 h' data Hnd Hwf Hd0 Hok Hloop.
  - by injection Hloop as <- <-.
  - apply NoDup_cons in Hnd as [Hs Hnd].
    cbn [for_each] in Hloop. apply bind_inr in Hloop as ([h2 data1] & Hstep & Hloop).
    pose proof Hwf as (Hlt & Hfree & Hinj).
    pose proof (merge_step_wf J C h data0 s h2 data1 Hwf Hstep) as Hwf2.
    destruct (merge_step_spec J C h data0 s h2 data1 Hstep)
      as (l & d & _ & -> & Hl0 & Hnone & _ & _ & Hnext & Hfree').
    destruct (Hfree' Hfree) as (_ & Hl2 & _).
    destruct Hok as (Hb & Hprov & Hdinj).
    assert (Hs0 : data0 !! s = None) by (apply Hd0, elem_of_cons; by left).
    apply (IH h2 (<[s:=l]> data0)); [done | done | | | done].
    { intros s' Hs'. rewrite lookup_insert_ne by (intros ->; done).
      apply Hd0, elem_of_cons. by right. }
    (* the new reference [l] is not an old one *)
    assert (Hnew : forall s', data0 !! s' = Some l -> False).
    { intros s' Hs'. destruct (J !! s) as [l1|] eqn:Js.
      - rewrite <- (Hl0 l1 eq_refl) in Js.
        destruct (Hprov s' l Hs') as [Js'|Hno].
        + assert (s' = s) as -> by eauto. congruence.
        + exact (Hno s Js).
      - rewrite (Hnone eq_refl) in Hs'. apply Hb in Hs'. lia. }
    split; [|split].
    + intros s' l' Hs'. destruct (decide (s' = s)) as [->|Hne].
      * rewrite lookup_insert_eq in Hs'. injection Hs' as <-. done.
      * rewrite lookup_insert_ne in Hs' by congruence. apply Hb in Hs'. lia.
    + intros s' l' Hs'. destruct (decide (s' = s)) as [->|Hne].
      * rewrite lookup_insert_eq in Hs'. injection Hs' as <-.
        destruct (J !! s) as [l1|] eqn:Js.
        -- left. rewrite (Hl0 l1 eq_refl). done.
        -- right. intros s'' Js''. rewrite (Hnone eq_refl) in Js''.
           apply Hlt in Js''. lia.
      * rewrite lookup_insert_ne in Hs' by congruence. eauto.
    + intros s1 s2 l' H1 H2.
      destruct (decide (s1 = s)) as [->|Hne1]; destruct (decide (s2 = s)) as [->|Hne2].
      * done.
      * rewrite lookup_insert_eq in H1. rewrite lookup_insert_ne in H2 by congruence.
        injection H1 as <-. exfalso. eauto.
      * rewrite lookup_insert_eq in H2. rewrite lookup_insert_ne in H1 by congruence.
        injection H2 as <-. exfalso. eauto.
      * rewrite lookup_insert_ne in H1, H2 by congruence. eauto.
Qed.

(** No two samples of the merged [data] share one record object: after a
    completed merge, [data[s1] is data[s2]] only when [s1 = s2], so an
    update to one sample's record never shows through another's. *)
Theorem merged_records_distinct (flag : bool) (jf : list (string * PyObj))
  (C : gmap string (gmap string Value)) (h h' : Heap) (J data : gmap string loc) :
  load_json jf = (h, J) -> snd (reconcile flag h J C) = inr (h', data) ->
  forall s1 s2 l, data !! s1 = Some l -> data !! s2 = Some l -> s1 = s2.
Proof.
  intros EJ Hr. pose proof (load_json_spec jf) as HJ. rewrite EJ in HJ.
  destruct HJ as (Hwf & _ & _). simpl in Hr.
  assert (Hok : refs_ok J h' data).
  { apply (merge_loop_refs J C (elements (dom J ∪ dom C)) h ∅ h' data (NoDup_elements _) Hwf
             (fun _ _ => lookup_empty _)); [|exact Hr].
    split; [|split]; intros *; rewrite ?lookup_empty; done. }
  apply Hok.
Qed.

Lemma merged_records_distinct_witness :
  exists h J h' data,
  load_json [("s1"%string, scenario_summary); ("s2"%string, scenario_summary)] = (h, J) /\
  snd (reconcile false h J
         {[ "s1"%string := scenario_agg; "s2"%string := scenario_agg;
            "s3"%string := scenario_agg ]}) = inr (h', data) /\
  is_Some (data !! "s1"%string) /\ is_Some (data !! "s2"%string) /\
  is_Some (data !! "s3"%string) /\
  data !! "s1"%string <> data !! "s2"%string /\
  data !! "s1"%string <> data !! "s3"%string /\
  data !! "s2"%string <> data !! "s3"%string.
Proof.
  destruct (load_json [("s1"%string, scenario_summary); ("s2"%string, scenario_summary)])
    as [h J] eqn:EJ.
  destruct (snd (reconcile false h J
         {[ "s1"%string := scenario_agg; "s2"%string := scenario_agg;
            "s3"%string := scenario_agg ]})) as [e|[h' data]] eqn:E.
  { exfalso. vm_compute in EJ. injection EJ as <- <-. vm_compute in E. discriminate. }
  assert (Hs : is_Some (data !! "s1"%string) /\ is_Some (data !! "s2"%string) /\
               is_Some (data !! "s3"%string)).
  { vm_compute in EJ. injection EJ as <- <-. vm_compute in E. injection E as _ <-.
    split; [|split]; eexists; vm_compute; reflexivity. }
  destruct Hs as ([l1 H1] & [l2 H2] & [l3 H3]).
  pose proof (merged_records_distinct false _ _ h h' J data EJ E) as Hd.
  exists h, J, h', data. split; [reflexivity|]. split; [exact E|].
  split; [by exists l1|]. split; [by exists l2|]. split; [by exists l3|].
  split; [|split].
  - rewrite H1, H2. intros Heq. injection Heq as <-.
    pose proof (Hd "s1"%string "s2"%string l1 H1 H2). discriminate.
  - rewrite H1, H3. intros Heq. injection Heq as <-.
    pose proof (Hd "s1"%string "s3"%string l1 H1 H3). discriminate.
  - rewrite H2, H3. intros Heq. injection Heq as <-.
    pose proof (Hd "s2"%string "s3"%string l2 H2 H3). discriminate.
Defined.

(* ------------------------------------------------------------------ *)
(** ** The report tables *)

Lemma table_header_keys :
  map fst add_table_refine_headers =
  concat (map (fun c => ["min_" ++ c; "mean_" ++ c; "std_" ++ c; "max_" ++ c]%string)
              columns).
Proof. reflexivity. Qed.

(** [add_table_refine] shows exactly the numeric fields of a CSV
    aggregate: for a file that yields a record, a key is one of the sixteen
    table headers if and only if the record holds a number under it (the
    two label tables are left out). *)
Theorem table_headers_numeric (py_float : string -> option Q) (rows : list Row)
  (d : gmap string Value) :
  aggregate_file py_float rows = inr (Some d) ->
  forall k, k ∈ map fst add_table_refine_headers <-> exists x, field_num d k = Some x.
Proof.
  intros H k. rewrite table_header_keys, list_elem_of_In, in_concat. split.
  - intros (ks & Hks & Hk). apply in_map_iff in Hks as (c & <- & Hc).
    apply list_elem_of_In in Hc.
    destruct (aggregate_column py_float rows d c H Hc) as (st & q0 & qs & _ & _ & H3).
    cbv zeta in H3.
    destruct H3 as (_ & _ & _ & _ & Hmean & Hstd & (m1 & Hmin & _) & (m2 & Hmax & _)).
    unfold field_num.
    destruct Hk as [<-|[<-|[<-|[<-|[]]]]].
    + rewrite Hmin. eexists; reflexivity.
    + rewrite Hmean. eexists; reflexivity.
    + rewrite Hstd. destruct (Qle_bool _ _); eexists; reflexivity.
    + rewrite Hmax. eexists; reflexivity.
  - intros (x & Hx). unfold field_num in Hx.
    destruct (d !! k) as [v|] eqn:Hv; [|discriminate].
    assert (Hk : k ∈ dom d) by (apply elem_of_dom; eauto).
    rewrite (aggregate_dom py_float rows d H) in Hk. unfold agg_keys in Hk.
    apply elem_of_list_to_set, list_elem_of_In in Hk.
    apply in_app_or in Hk as [Hk|Hk]; [|apply in_concat; exact Hk].
    exfalso. destruct (aggregate_fold py_float rows d H) as (st & _ & _ & Hfin & _).
    apply finalize_spec in Hfin as [[_ Hr] | [_ (d' & Hr & _ & Hsc & Hpc & _)]];
      [discriminate|].
    injection Hr as <-.
    destruct Hk as [<-|[<-|[]]].
    + rewrite Hsc in Hv. injection Hv as <-. discriminate.
    + rewrite Hpc in Hv. injection Hv as <-. discriminate.
Qed.

Lemma table_headers_numeric_witness :
  aggregate_file decimal_float scenario_rows = inr (Some scenario_agg) /\
  ("mean_polyAlen"%string ∈ map fst add_table_refine_headers <->
   exists x, field_num scenario_agg "mean_polyAlen"%string = Some x).
Proof.
  assert (H : aggregate_file decimal_float scenario_rows = inr (Some scenario_agg))
    by (vm_compute; reflexivity).
  split; [exact H|]. exact (table_headers_numeric decimal_float scenario_rows _ H _).
Defined.

Lemma general_stats_keys_not_agg k :
  k ∈ map fst add_general_stats_refine_headers -> k ∉ agg_keys.
Proof.
  intros Hk. simpl in Hk.
  repeat (apply elem_of_cons in Hk as [->|Hk];
    [refine (bool_decide_unpack _ _); vm_compute; reflexivity|]).
  by apply elem_of_nil in Hk.
Qed.

(** [add_general_stats_refine] reads the read counts of the summary JSON:
    none of its three keys is a field of a CSV aggregate, so for every
    sample whose summary is a dict, the record returned by
    [parse_refine_log] holds the summary's own value (or nothing) under
    each of them. *)
Theorem general_stats_fields_kept (py_float : string -> option Q) (flag : bool)
  (jf : list (string * PyObj)) (cf : list (string * list Row))
  (logs : list Log) (out : gmap string PyObj) (s : string) (d : gmap string Value) :
  parse_refine_log py_float flag jf cf = (logs, inr out) ->
  summaries jf !! s = Some (PDict d) ->
  exists r, out !! s = Some (PDict r) /\
    forall k, k ∈ map fst add_general_stats_refine_headers -> r !! k = d !! k.
Proof.
  intros Hp Hs.
  destruct (parse_spec py_float flag jf cf logs out Hp) as (C & HC & _ & _ & Hin).
  destruct (Hin s) as (d' & Hsf & Ho).
  { apply elem_of_union_l, elem_of_dom. eauto. }
  unfold summary_fields in Hsf. rewrite Hs in Hsf. injection Hsf as <-.
  exists (dget ∅ C s ∪ d). split; [exact Ho|].
  intros k Hk. apply lookup_union_r.
  unfold dget. destruct (C !! s) as [a|] eqn:Ha; [|apply lookup_empty].
  apply not_elem_of_dom. rewrite (load_csv_entries py_float cf C s a HC Ha).
  by apply general_stats_keys_not_agg.
Qed.

Lemma general_stats_fields_kept_witness :
  exists out,
  parse_refine_log decimal_float false [("s1"%string, scenario_summary)]
    [("s1"%string, scenario_rows)] = ([], inr out) /\
  summaries [("s1"%string, scenario_summary)] !! "s1"%string =
    Some (PDict scenario_summary_fields) /\
  exists r, out !! "s1"%string = Some (PDict r) /\
    forall k, k ∈ map fst add_general_stats_refine_headers ->
      r !! k = scenario_summary_fields !! k.
Proof.
  destruct (parse_refine_log decimal_float false [("s1"%string, scenario_summary)]
    [("s1"%string, scenario_rows)]) as [logs [e|out]] eqn:E;
    [vm_compute in E; discriminate|].
  assert (Hl : logs = []) by (vm_compute in E; congruence). subst logs.
  assert (Hs : summaries [("s1"%string, scenario_summary)] !! "s1"%string =
    Some (PDict scenario_summary_fields)) by reflexivity.
  exists out. split; [reflexivity|]. split; [exact Hs|].
  exact (general_stats_fields_kept decimal_float false _ _ [] out "s1" _ E Hs).
Defined.

(* ------------------------------------------------------------------ *)
(** ** The naming flag *)

Lemma csv_field_error (py_float : string -> option Q) (cf : list (string * list Row))
  (s : string) (rows : list Row) (row : Row) (c : string) :
  In (s, rows) cf -> In row rows -> In c columns ->
  (exists e, row_float py_float row c = inl e) ->
  exists e, load_csv py_float cf = inl e.
Proof.
  intros Hf Hr Hc [e0 He0].
  unfold load_csv. apply (for_each_fail _ _ _ _ Hf). intros C0.
  unfold csv_step. simpl.
  destruct (for_each_fail (row_step py_float) init_stats rows row Hr) as [e He].
  { intros st. unfold row_step.
    destruct (for_each_fail (column_step py_float row) st columns c Hc) as [e1 He1].
    { intros st'. unfold column_step. rewrite He0. by exists e0. }
    rewrite He1. by exists e1. }
  unfold aggregate_file, fold_rows. rewrite He. by exists e.
Qed.

Lemma parse_returns_map (py_float : string -> option Q) (flag : bool)
  (jf : list (string * PyObj)) (cf : list (string * list Row)) C :
  load_csv py_float cf = inr C ->
  (forall s j, summaries jf !! s <> Some (PNonDict j)) ->
  exists out, snd (parse_refine_log py_float flag jf cf) = inr out /\
    dom out = dom (summaries jf) ∪ dom C.
Proof.
  intros HC Hok.
  assert (Hex : exists out, snd (parse_refine_log py_float flag jf cf) = inr out).
  { pose proof (load_json_spec jf) as HJ.
    unfold parse_refine_log. destruct (load_json jf) as [h J] eqn:EJ.
    destruct HJ as (Hwf & _ & _). rewrite HC. simpl.
    destruct (merge_loop_ok J C (elements (dom J ∪ dom C)) h ∅ (NoDup_elements _) Hwf)
      as [[h' data] Hl].
    { intros s _. rewrite (summary_dict_load jf h J s EJ). unfold summary_fields.
      destruct (summaries jf !! s) as [[d|j]|] eqn:Hs; [done | | done].
      exfalso. exact (Hok s j Hs). }
    rewrite Hl. simpl. by eexists. }
  destruct Hex as [out Hout]. exists out. split; [exact Hout|].
  destruct (parse_refine_log py_float flag jf cf) as [logs r] eqn:E.
  simpl in Hout. subst r.
  destruct (parse_spec py_float flag jf cf logs out E) as (C' & HC' & _ & Hdom & _).
  rewrite HC in HC'. injection HC' as <-. exact Hdom.
Qed.

(** C8 (amended).  Setting the naming flag does not change the result:
    it is the one computed with the flag unset.  When the CSV files load,
    the log is exactly one [IncompatibleSampleNaming], and when every
    summary payload is a dict the call returns a map over the union of
    the key sets.  When a CSV file raises (for instance on a field that
    [float()] rejects), nothing is logged and the call raises. *)
Theorem naming_flag_logged_once (py_float : string -> option Q)
  (jf : list (string * PyObj)) (cf : list (string * list Row)) :
  snd (parse_refine_log py_float true jf cf) =
    snd (parse_refine_log py_float false jf cf) /\
  (forall C, load_csv py_float cf = inr C ->
     fst (parse_refine_log py_float true jf cf) = [IncompatibleSampleNaming] /\
     ((forall s j, summaries jf !! s <> Some (PNonDict j)) ->
      exists out, snd (parse_refine_log py_float true jf cf) = inr out /\
        dom out = dom (summaries jf) ∪ dom C)) /\
  (forall e, load_csv py_float cf = inl e ->
     parse_refine_log py_float true jf cf = ([], inl e)) /\
  (forall s rows row c, In (s, rows) cf -> In row rows -> In c columns ->
     (exists e, row_float py_float row c = inl e) ->
     exists e, parse_refine_log py_float true jf cf = ([], inl e)).
Proof.
  assert (Herr : forall e, load_csv py_float cf = inl e ->
            parse_refine_log py_float true jf cf = ([], inl e)).
  { intros e He. unfold parse_refine_log. destruct (load_json jf). rewrite He. done. }
  split; [|split; [|split]].
  - unfold parse_refine_log. destruct (load_json jf) as [h J].
    destruct (load_csv py_float cf); reflexivity.
  - intros C HC. split.
    + rewrite parse_logs, HC. reflexivity.
    + intros Hok. exact (parse_returns_map py_float true jf cf C HC Hok).
  - exact Herr.
  - intros s rows row c Hf Hr Hc He.
    destruct (csv_field_error py_float cf s rows row c Hf Hr Hc He) as [e Hl].
    exists e. exact (Herr e Hl).
Qed.
